(** * Construction_Web: job lifecycle, identifier minting and invoice aging

    A shallow embedding of the server-side core of the application:
    - [lib/db/schema.ts]      the [jobs] / [line_items] relations and [JOB_STATUSES];
    - [lib/utils/workflow.ts] the status workflow ([canTransitionTo], ...);
    - [lib/utils/numbers.ts]  estimate and invoice number generation and the
                              patterns of the two parsers;
    - [lib/actions/estimates.ts], [jobs.ts], [invoices.ts] the server actions.

    Strings are Rocq strings, numbers that the code uses as integers are [Z],
    JavaScript numbers that carry money are rationals ([Q]), the database is a
    finite map from the serial id to the row. *)

From Stdlib Require Import ZArith QArith Qround Qabs Lia.
From stdpp Require Import base gmap strings list pretty.
Import (notations) Stdlib.Strings.Ascii.

Local Open Scope Z_scope.

(** ** JavaScript strings *)

Module Js.

(** The double quote, which the messages of [updateJobStatus] contain. *)
Definition dquote : string := String (Ascii.ascii_of_nat 34) EmptyString.

(** [Array.prototype.indexOf]: position of the first element strictly equal
    to [x], or [-1]. *)
Fixpoint indexOf_from (l : list string) (x : string) (i : Z) : Z :=
  match l with
  | [] => -1
  | y :: l' => if String.eqb y x then i else indexOf_from l' x (i + 1)
  end.

Definition indexOf (l : list string) (x : string) : Z := indexOf_from l x 0.

(** White space removed by [String.prototype.trim], on 8-bit characters:
    TAB, LF, VT, FF, CR and SP. *)
Definition isWhiteSpace (c : Ascii.ascii) : bool :=
  let n := Z.of_nat (Ascii.nat_of_ascii c) in
  ((9 <=? n) && (n <=? 13)) || (n =? 32).

Fixpoint trimStart (s : string) : string :=
  match s with
  | EmptyString => EmptyString
  | String c s' => if isWhiteSpace c then trimStart s' else s
  end.

(** [trimEnd] keeps a character when something that is not white space
    follows it, or when it is not white space itself. *)
Fixpoint trimEnd (s : string) : string :=
  match s with
  | EmptyString => EmptyString
  | String c s' =>
      match trimEnd s' with
      | EmptyString => if isWhiteSpace c then EmptyString else String c EmptyString
      | r => String c r
      end
  end.

Definition trim (s : string) : string := trimEnd (trimStart s).

(** Truthiness of a string: only the empty string is falsy. *)
Definition truthy (s : string) : bool :=
  match s with EmptyString => false | _ => true end.

(** [s || null] on strings. *)
Definition orNull (s : string) : option string :=
  if truthy s then Some s else None.

(** [Number.prototype.toString] on an integer. *)
Definition toString (n : Z) : string := pretty n.

Fixpoint repeatChar (c : Ascii.ascii) (n : nat) : string :=
  match n with
  | O => EmptyString
  | S n' => String c (repeatChar c n')
  end.

(** [s.padStart(target, c)] with a one-character filler. *)
Definition padStart (target : nat) (c : Ascii.ascii) (s : string) : string :=
  repeatChar c (target - String.length s) +:+ s.

(** [s.slice(-k)]: the last [k] characters (all of [s] when it is shorter). *)
Definition sliceLast (k : nat) (s : string) : string :=
  String.substring (String.length s - k) k s.

(** [String.fromCharCode] on the code units the 8-bit character type holds. *)
Definition fromCharCode (n : Z) : string :=
  String (Ascii.ascii_of_N (Z.to_N n)) EmptyString.

(** The value of a decimal digit. *)
Definition digitValue (c : Ascii.ascii) : option Z :=
  let n := Z.of_nat (Ascii.nat_of_ascii c) in
  if (48 <=? n) && (n <=? 57) then Some (n - 48) else None.

(** [parseFloat] on a plain decimal numeral: an optional sign, digits, and
    optionally a point and digits; [None] stands for what the numeral syntax
    of the model does not cover. *)
Fixpoint parseFraction (s : string) (num : Z) (den : positive) : option Q :=
  match s with
  | EmptyString => Some (num # den)
  | String c r =>
      match digitValue c with
      | Some d => parseFraction r (10 * num + d) (10 * den)
      | None => None
      end
  end.

Fixpoint parseNumeral (s : string) (num : Z) : option Q :=
  match s with
  | EmptyString => Some (num # 1)
  | String c r =>
      if Ascii.eqb c "." then parseFraction r num 1
      else match digitValue c with
           | Some d => parseNumeral r (10 * num + d)
           | None => None
           end
  end.

Definition parseFloat (s : string) : option Q :=
  match s with
  | String c r =>
      if Ascii.eqb c "-" then Qopp <$> parseNumeral r 0 else parseNumeral s 0
  | EmptyString => None
  end.

End Js.

(** ** [schema.ts]: the status values *)

Definition JOB_STATUSES : list string :=
  [ "Estimate Created"; "Estimate Sent"; "Approved"; "In Progress";
    "Completed"; "Invoiced"; "Paid" ].

(** ** [workflow.ts] *)

Definition STATUS_ORDER : list string := JOB_STATUSES.

(** [STATUS_DATE_FIELDS[status]]: [Some (Some f)] a date column, [Some None]
    the [null] of "Estimate Sent", [None] the [undefined] of a key the object
    does not have. *)
Definition STATUS_DATE_FIELDS (status : string) : option (option string) :=
  if String.eqb status "Estimate Created" then Some (Some "estimateDate")
  else if String.eqb status "Estimate Sent" then Some None
  else if String.eqb status "Approved" then Some (Some "approvalDate")
  else if String.eqb status "In Progress" then Some (Some "startDate")
  else if String.eqb status "Completed" then Some (Some "completionDate")
  else if String.eqb status "Invoiced" then Some (Some "invoiceDate")
  else if String.eqb status "Paid" then Some (Some "paymentDate")
  else None.

Definition canTransitionTo (currentStatus newStatus : string) : bool :=
  let currentIdx := Js.indexOf STATUS_ORDER currentStatus in
  let newIdx := Js.indexOf STATUS_ORDER newStatus in
  newIdx =? currentIdx + 1.

Definition getNextStatus (currentStatus : string) : option string :=
  let currentIdx := Js.indexOf STATUS_ORDER currentStatus in
  if (currentIdx =? -1) || (currentIdx >=? Z.of_nat (length STATUS_ORDER) - 1)
  then None
  else STATUS_ORDER !! Z.to_nat (currentIdx + 1).

Definition getPreviousStatus (currentStatus : string) : option string :=
  let currentIdx := Js.indexOf STATUS_ORDER currentStatus in
  if currentIdx <=? 0 then None
  else STATUS_ORDER !! Z.to_nat (currentIdx - 1).

Definition canEditJob (status : string) : bool :=
  String.eqb status "Estimate Created" || String.eqb status "Estimate Sent".

Definition canDeleteJob (status : string) : bool :=
  String.eqb status "Estimate Created" || String.eqb status "Estimate Sent".

Definition isPaid (status : string) : bool := String.eqb status "Paid".

(** ** Dates

    A [Date] object is read through four of its methods: [getTime] (milliseconds
    since the epoch) and the local calendar fields [getFullYear], [getMonth]
    (0 to 11) and [getDate] (1 to 31). *)

Record JsDate := {
  getTime : Z;
  getFullYear : Z;
  getMonth : Z;
  getDate : Z
}.

Definition msPerDay : Z := 1000 * 60 * 60 * 24.

(** A value of a [date] column is the text YYYY-MM-DD of a calendar day. The
    model identifies that text with the number of the day counted from
    1970-01-01: [new Date(s).getTime()] is then [s * msPerDay], and
    [d.toISOString().split('T')[0]] is the UTC day that holds [getTime d]. *)
Definition isodate := Z.

Definition toISODate (d : JsDate) : isodate := getTime d / msPerDay.

Definition Date_parse (s : isodate) : Z := s * msPerDay.

(** [getStatusDateUpdates(newStatus, date)]: the object with at most one
    computed key, as the list of its entries. *)
Definition getStatusDateUpdates (newStatus : string) (date : JsDate)
  : list (string * isodate) :=
  let dateValue := toISODate date in
  match STATUS_DATE_FIELDS newStatus with
  | Some (Some dateField) => [(dateField, dateValue)]
  | _ => []
  end.

(** ** [schema.ts]: the relations *)

Record Job := {
  job_id : Z;
  customerId : Z;
  estimateNumber : string;
  invoiceNumber : option string;
  estimateDate : isodate;
  approvalDate : option isodate;
  startDate : option isodate;
  completionDate : option isodate;
  invoiceDate : option isodate;
  paymentDate : option isodate;
  status : string;
  totalAmount : string;
  notes : option string;
  createdAt : Z;
  updatedAt : Z
}.

(** Column assignments of an [update ... set]. *)
Definition set_status (v : string) (j : Job) : Job :=
  {| job_id := job_id j;
     customerId := customerId j;
     estimateNumber := estimateNumber j;
     invoiceNumber := invoiceNumber j;
     estimateDate := estimateDate j;
     approvalDate := approvalDate j;
     startDate := startDate j;
     completionDate := completionDate j;
     invoiceDate := invoiceDate j;
     paymentDate := paymentDate j;
     status := v;
     totalAmount := totalAmount j;
     notes := notes j;
     createdAt := createdAt j;
     updatedAt := updatedAt j |}.

Definition set_invoiceNumber (v : option string) (j : Job) : Job :=
  {| job_id := job_id j;
     customerId := customerId j;
     estimateNumber := estimateNumber j;
     invoiceNumber := v;
     estimateDate := estimateDate j;
     approvalDate := approvalDate j;
     startDate := startDate j;
     completionDate := completionDate j;
     invoiceDate := invoiceDate j;
     paymentDate := paymentDate j;
     status := status j;
     totalAmount := totalAmount j;
     notes := notes j;
     createdAt := createdAt j;
     updatedAt := updatedAt j |}.

Definition set_estimateDate (v : isodate) (j : Job) : Job :=
  {| job_id := job_id j;
     customerId := customerId j;
     estimateNumber := estimateNumber j;
     invoiceNumber := invoiceNumber j;
     estimateDate := v;
     approvalDate := approvalDate j;
     startDate := startDate j;
     completionDate := completionDate j;
     invoiceDate := invoiceDate j;
     paymentDate := paymentDate j;
     status := status j;
     totalAmount := totalAmount j;
     notes := notes j;
     createdAt := createdAt j;
     updatedAt := updatedAt j |}.

Definition set_approvalDate (v : option isodate) (j : Job) : Job :=
  {| job_id := job_id j;
     customerId := customerId j;
     estimateNumber := estimateNumber j;
     invoiceNumber := invoiceNumber j;
     estimateDate := estimateDate j;
     approvalDate := v;
     startDate := startDate j;
     completionDate := completionDate j;
     invoiceDate := invoiceDate j;
     paymentDate := paymentDate j;
     status := status j;
     totalAmount := totalAmount j;
     notes := notes j;
     createdAt := createdAt j;
     updatedAt := updatedAt j |}.

Definition set_startDate (v : option isodate) (j : Job) : Job :=
  {| job_id := job_id j;
     customerId := customerId j;
     estimateNumber := estimateNumber j;
     invoiceNumber := invoiceNumber j;
     estimateDate := estimateDate j;
     approvalDate := approvalDate j;
     startDate := v;
     completionDate := completionDate j;
     invoiceDate := invoiceDate j;
     paymentDate := paymentDate j;
     status := status j;
     totalAmount := totalAmount j;
     notes := notes j;
     createdAt := createdAt j;
     updatedAt := updatedAt j |}.

Definition set_completionDate (v : option isodate) (j : Job) : Job :=
  {| job_id := job_id j;
     customerId := customerId j;
     estimateNumber := estimateNumber j;
     invoiceNumber := invoiceNumber j;
     estimateDate := estimateDate j;
     approvalDate := approvalDate j;
     startDate := startDate j;
     completionDate := v;
     invoiceDate := invoiceDate j;
     paymentDate := paymentDate j;
     status := status j;
     totalAmount := totalAmount j;
     notes := notes j;
     createdAt := createdAt j;
     updatedAt := updatedAt j |}.

Definition set_invoiceDate (v : option isodate) (j : Job) : Job :=
  {| job_id := job_id j;
     customerId := customerId j;
     estimateNumber := estimateNumber j;
     invoiceNumber := invoiceNumber j;
     estimateDate := estimateDate j;
     approvalDate := approvalDate j;
     startDate := startDate j;
     completionDate := completionDate j;
     invoiceDate := v;
     paymentDate := paymentDate j;
     status := status j;
     totalAmount := totalAmount j;
     notes := notes j;
     createdAt := createdAt j;
     updatedAt := updatedAt j |}.

Definition set_paymentDate (v : option isodate) (j : Job) : Job :=
  {| job_id := job_id j;
     customerId := customerId j;
     estimateNumber := estimateNumber j;
     invoiceNumber := invoiceNumber j;
     estimateDate := estimateDate j;
     approvalDate := approvalDate j;
     startDate := startDate j;
     completionDate := completionDate j;
     invoiceDate := invoiceDate j;
     paymentDate := v;
     status := status j;
     totalAmount := totalAmount j;
     notes := notes j;
     createdAt := createdAt j;
     updatedAt := updatedAt j |}.

Definition set_totalAmount (v : string) (j : Job) : Job :=
  {| job_id := job_id j;
     customerId := customerId j;
     estimateNumber := estimateNumber j;
     invoiceNumber := invoiceNumber j;
     estimateDate := estimateDate j;
     approvalDate := approvalDate j;
     startDate := startDate j;
     completionDate := completionDate j;
     invoiceDate := invoiceDate j;
     paymentDate := paymentDate j;
     status := status j;
     totalAmount := v;
     notes := notes j;
     createdAt := createdAt j;
     updatedAt := updatedAt j |}.

Definition set_notes (v : option string) (j : Job) : Job :=
  {| job_id := job_id j;
     customerId := customerId j;
     estimateNumber := estimateNumber j;
     invoiceNumber := invoiceNumber j;
     estimateDate := estimateDate j;
     approvalDate := approvalDate j;
     startDate := startDate j;
     completionDate := completionDate j;
     invoiceDate := invoiceDate j;
     paymentDate := paymentDate j;
     status := status j;
     totalAmount := totalAmount j;
     notes := v;
     createdAt := createdAt j;
     updatedAt := updatedAt j |}.

Definition set_updatedAt (v : Z) (j : Job) : Job :=
  {| job_id := job_id j;
     customerId := customerId j;
     estimateNumber := estimateNumber j;
     invoiceNumber := invoiceNumber j;
     estimateDate := estimateDate j;
     approvalDate := approvalDate j;
     startDate := startDate j;
     completionDate := completionDate j;
     invoiceDate := invoiceDate j;
     paymentDate := paymentDate j;
     status := status j;
     totalAmount := totalAmount j;
     notes := notes j;
     createdAt := createdAt j;
     updatedAt := v |}.

(** The entries of [getStatusDateUpdates], spread into a [set]: each key is
    the name of a date column. *)
Definition set_dateColumn (field : string) (v : isodate) (j : Job) : Job :=
  if String.eqb field "estimateDate" then set_estimateDate v j
  else if String.eqb field "approvalDate" then set_approvalDate (Some v) j
  else if String.eqb field "startDate" then set_startDate (Some v) j
  else if String.eqb field "completionDate" then set_completionDate (Some v) j
  else if String.eqb field "invoiceDate" then set_invoiceDate (Some v) j
  else if String.eqb field "paymentDate" then set_paymentDate (Some v) j
  else j.

Definition set_dateUpdates (dateUpdates : list (string * isodate)) (j : Job) : Job :=
  fold_left (fun acc kv => set_dateColumn kv.1 kv.2 acc) dateUpdates j.

Record LineItem := {
  li_id : Z;
  jobId : Z;
  itemNumber : Z;
  li_action : string;
  li_amount : string;
  li_description : string
}.

(** The database: the [jobs] relation keyed by its primary key, the
    [line_items] relation, and the two [serial] counters. Statements are total
    on it: a constraint violation or a lost connection, which the [catch] of
    every action turns into its generic failure, is not part of the model. *)
Record Store := {
  jobs : gmap Z Job;
  lineItems : list LineItem;
  nextJobId : Z;
  nextLineItemId : Z
}.

Definition empty_store : Store :=
  {| jobs := ∅; lineItems := []; nextJobId := 1; nextLineItemId := 1 |}.

Module Db.

(** [db.select().from(jobs).where(eq(jobs.id, id))], first row. *)
Definition selectJob (id : Z) (st : Store) : option Job := jobs st !! id.

(** [db.update(jobs).set(...).where(eq(jobs.id, id))]. *)
Definition updateJob (id : Z) (set : Job -> Job) (st : Store) : Store :=
  {| jobs := alter set id (jobs st);
     lineItems := lineItems st;
     nextJobId := nextJobId st;
     nextLineItemId := nextLineItemId st |}.

(** [db.insert(jobs).values(...).returning()]: the row gets the next serial. *)
Definition insertJob (mk : Z -> Job) (st : Store) : Job * Store :=
  let row := mk (nextJobId st) in
  (row, {| jobs := <[nextJobId st := row]> (jobs st);
           lineItems := lineItems st;
           nextJobId := nextJobId st + 1;
           nextLineItemId := nextLineItemId st |}).

(** [db.delete(jobs).where(eq(jobs.id, id))]. *)
Definition deleteJob (id : Z) (st : Store) : Store :=
  {| jobs := delete id (jobs st);
     lineItems := lineItems st;
     nextJobId := nextJobId st;
     nextLineItemId := nextLineItemId st |}.

(** [db.delete(lineItems).where(eq(lineItems.jobId, id))]. *)
Definition deleteLineItems (id : Z) (st : Store) : Store :=
  {| jobs := jobs st;
     lineItems := List.filter (fun r => negb (jobId r =? id)) (lineItems st);
     nextJobId := nextJobId st;
     nextLineItemId := nextLineItemId st |}.


(** [db.insert(lineItems).values(rows)]: each row gets a serial. *)
Definition insertLineItems (rows : list (Z -> LineItem)) (st : Store) : Store :=
  let fix go (rows : list (Z -> LineItem)) (next : Z) : list LineItem :=
    match rows with
    | [] => []
    | mk :: rows' => mk next :: go rows' (next + 1)
    end in
  {| jobs := jobs st;
     lineItems := lineItems st ++ go rows (nextLineItemId st);
     nextJobId := nextJobId st;
     nextLineItemId := nextLineItemId st + Z.of_nat (length rows) |}.

Fixpoint insertByItemNumber (r : LineItem) (l : list LineItem) : list LineItem :=
  match l with
  | [] => [r]
  | x :: l' => if itemNumber r <? itemNumber x then r :: l
               else x :: insertByItemNumber r l'
  end.

(** [db.select().from(lineItems).where(eq(lineItems.jobId, id))
      .orderBy(lineItems.itemNumber)]. *)
Definition selectLineItems (id : Z) (st : Store) : list LineItem :=
  foldr insertByItemNumber []
    (List.filter (fun r => jobId r =? id) (lineItems st)).

(** [select count( * ) from jobs where col like 'prefix%']; a [null] column
    matches nothing. *)
Definition countLike (col : Job -> option string) (datePrefix : string)
    (st : Store) : Z :=
  Z.of_nat (length (List.filter
    (fun kv => match col kv.2 with
               | Some s => String.prefix datePrefix s
               | None => false
               end)
    (map_to_list (jobs st)))).

End Db.

(** ** [numbers.ts] *)

Definition datePrefix (today : JsDate) : string :=
  let year := Js.sliceLast 2 (Js.toString (getFullYear today)) in
  let month := Js.padStart 2 "0" (Js.toString (getMonth today + 1)) in
  let day := Js.padStart 2 "0" (Js.toString (getDate today)) in
  year +:+ month +:+ day.

(** [random] is the value of [Math.random()], a rational in [0, 1). *)
Definition generateEstimateNumber (today : JsDate) (random : Q) (st : Store) : string :=
  let count := Db.countLike (fun j => Some (estimateNumber j)) (datePrefix today) st in
  let sequenceLetter := Js.fromCharCode (65 + count) in
  let randomDigits := Js.toString (Qfloor (100 + random * 900)) in
  datePrefix today +:+ "T" +:+ randomDigits +:+ sequenceLetter.

Definition generateInvoiceNumber (today : JsDate) (st : Store) : string :=
  let count := Db.countLike invoiceNumber (datePrefix today) st in
  let sequenceNumber := Js.padStart 3 "0" (Js.toString (count + 1)) in
  datePrefix today +:+ sequenceNumber.

(** [\d{n}] at the head of [s]: the rest of [s] after [n] digits. *)
Fixpoint matchDigits (n : nat) (s : string) : option string :=
  match n with
  | O => Some s
  | S n' =>
      match s with
      | String c r =>
          match Js.digitValue c with
          | Some _ => matchDigits n' r
          | None => None
          end
      | EmptyString => None
      end
  end.

Definition isUpperCase (c : Ascii.ascii) : bool :=
  let n := Z.of_nat (Ascii.nat_of_ascii c) in (65 <=? n) && (n <=? 90).

(** The pattern of [parseEstimateNumber]: six digits, [T], three digits and
    one letter from [A] to [Z]. *)
Definition matchesEstimateNumber (s : string) : bool :=
  match matchDigits 6 s with
  | Some (String t r) =>
      Ascii.eqb t "T" &&
      match matchDigits 3 r with
      | Some (String l EmptyString) => isUpperCase l
      | _ => false
      end
  | _ => false
  end.

(** The pattern of [parseInvoiceNumber]: nine digits. *)
Definition matchesInvoiceNumber (s : string) : bool :=
  match matchDigits 9 s with
  | Some EmptyString => true
  | _ => false
  end.

(** ** Results of the server actions

    Every action returns an object [{ success, error?, <payload>? }]. *)

Record ActionResult (A : Type) := {
  success : bool;
  payload : option A;
  error : option string
}.
Arguments success {A} _.
Arguments payload {A} _.
Arguments error {A} _.

Definition succeed {A} : ActionResult A :=
  {| success := true; payload := None; error := None |}.
(** The payload is what the final query returned ([null] when no row). *)
Definition succeed_with {A} (x : option A) : ActionResult A :=
  {| success := true; payload := x; error := None |}.
Definition failure {A} (msg : string) : ActionResult A :=
  {| success := false; payload := None; error := Some msg |}.

(** What an action reads from its environment: the clock (every [new Date()]
    of one action gives the same reading) and, for [createEstimate], the value
    of [Math.random()]. *)
Record Env := {
  now : JsDate;
  random : Q
}.

(** ** [estimates.ts] *)

(** A line item as the form submits it; [amount] is a JavaScript number. *)
Record LineItemInput := {
  action : string;
  amount : Q;
  description : string
}.

(** [x.toFixed(2)]: the nearest hundredth, the larger one on a tie, with the
    sign in front. *)
Definition toFixed2 (x : Q) : string :=
  let n := Qfloor (Qabs x * 100 + (1 # 2)) in
  let digits := Js.toString (n / 100) +:+ "." +:+ Js.padStart 2 "0" (Js.toString (n mod 100)) in
  if Qle_bool 0 x then digits else "-" +:+ digits.

(** [item.amount || 0]. *)
Definition amountOrZero (x : Q) : Q := if Qeq_bool x 0 then 0%Q else x.

(** [lineItems.reduce((sum, item) => sum + (item.amount || 0), 0)]. *)
Definition sumAmounts (items : list LineItemInput) : Q :=
  fold_left (fun sum item => (sum + amountOrZero (amount item))%Q) items 0%Q.

(** The validation loop of [createEstimate], from index [i]: the message of
    the first check that fails. *)
Fixpoint validateLineItems (i : Z) (items : list LineItemInput) : option string :=
  match items with
  | [] => None
  | item :: rest =>
      if negb (Js.truthy (Js.trim (action item))) then
        Some ("Line item " +:+ Js.toString (i + 1) +:+ ": Action is required")
      else if negb (Qle_bool 0 (amount item)) then
        Some ("Line item " +:+ Js.toString (i + 1) +:+ ": Amount must be positive")
      else if negb (Js.truthy (Js.trim (description item))) then
        Some ("Line item " +:+ Js.toString (i + 1) +:+ ": Description is required")
      else validateLineItems (i + 1) rest
  end.

(** The rows of [data.lineItems.map((item, index) => ...)], each waiting for
    its serial. *)
Fixpoint lineItemRows (job : Z) (index : Z) (items : list LineItemInput)
  : list (Z -> LineItem) :=
  match items with
  | [] => []
  | item :: rest =>
      (fun id => {| li_id := id;
                    jobId := job;
                    itemNumber := index + 1;
                    li_action := Js.trim (action item);
                    li_amount := toFixed2 (amount item);
                    li_description := Js.trim (description item) |})
      :: lineItemRows job (index + 1) rest
  end.

(** [EstimateWithDetails], without the projection of the customer row. *)
Definition JobWithDetails : Type := Job * list LineItem.

Definition getEstimateById (id : Z) (st : Store) : option JobWithDetails :=
  match Db.selectJob id st with
  | None => None
  | Some job => Some (job, Db.selectLineItems (job_id job) st)
  end.

(** [notes?.trim() || null] on an optional argument. *)
Definition trimOrNull (notes : option string) : option string :=
  match notes with
  | None => None
  | Some s => Js.orNull (Js.trim s)
  end.

Definition createEstimate (env : Env) (customer : Z)
    (items : list LineItemInput) (notes' : option string) (st : Store)
  : ActionResult JobWithDetails * Store :=
  if (Z.of_nat (length items) =? 0) then
    (failure "At least one line item is required", st)
  else
    match validateLineItems 0 items with
    | Some msg => (failure msg, st)
    | None =>
        let estimateNumber' := generateEstimateNumber (now env) (random env) st in
        let total := sumAmounts items in
        let '(newJob, st1) :=
          Db.insertJob (fun id =>
            {| job_id := id;
               customerId := customer;
               estimateNumber := estimateNumber';
               invoiceNumber := None;
               estimateDate := toISODate (now env);
               approvalDate := None;
               startDate := None;
               completionDate := None;
               invoiceDate := None;
               paymentDate := None;
               status := "Estimate Created";
               totalAmount := toFixed2 total;
               notes := trimOrNull notes';
               createdAt := getTime (now env);
               updatedAt := getTime (now env) |}) st in
        let st2 := Db.insertLineItems (lineItemRows (job_id newJob) 0 items) st1 in
        let estimate := getEstimateById (job_id newJob) st2 in
        (succeed_with estimate, st2)
    end.

Definition updateEstimate (env : Env) (id : Z)
    (items : option (list LineItemInput)) (notes' : option string) (st : Store)
  : ActionResult JobWithDetails * Store :=
  match Db.selectJob id st with
  | None => (failure "Estimate not found", st)
  | Some job =>
      if negb (canEditJob (status job)) then
        (failure "Cannot update estimate after approval", st)
      else
        let finish (st' : Store) :=
          (succeed_with (getEstimateById id st'), st') in
        match items with
        | Some items =>
            if Z.of_nat (length items) =? 0 then
              (failure "At least one line item is required", st)
            else
              let st1 := Db.deleteLineItems id st in
              let st2 := Db.insertLineItems (lineItemRows id 0 items) st1 in
              let total := sumAmounts items in
              let notes2 := match trimOrNull notes' with
                            | Some s => Some s
                            | None => notes job
                            end in
              finish (Db.updateJob id
                        (fun j => set_updatedAt (getTime (now env))
                                    (set_notes notes2
                                      (set_totalAmount (toFixed2 total) j))) st2)
        | None =>
            match notes' with
            | Some _ =>
                finish (Db.updateJob id
                          (fun j => set_updatedAt (getTime (now env))
                                      (set_notes (trimOrNull notes') j)) st)
            | None => finish st
            end
        end
  end.

Definition deleteEstimate (id : Z) (st : Store) : ActionResult unit * Store :=
  match Db.selectJob id st with
  | None => (failure "Estimate not found", st)
  | Some job =>
      if negb (canDeleteJob (status job)) then
        (failure "Cannot delete estimate after approval", st)
      else
        (succeed, Db.deleteJob id (Db.deleteLineItems id st))
  end.

Definition markEstimateAsSent (env : Env) (id : Z) (st : Store)
  : ActionResult unit * Store :=
  match Db.selectJob id st with
  | None => (failure "Estimate not found", st)
  | Some job =>
      if negb (String.eqb (status job) "Estimate Created") then
        (failure "Estimate has already been sent or approved", st)
      else
        (succeed,
         Db.updateJob id
           (fun j => set_updatedAt (getTime (now env))
                       (set_status "Estimate Sent" j)) st)
  end.

Definition approveEstimate (env : Env) (id : Z) (st : Store)
  : ActionResult unit * Store :=
  match Db.selectJob id st with
  | None => (failure "Estimate not found", st)
  | Some job =>
      if negb (String.eqb (status job) "Estimate Created")
         && negb (String.eqb (status job) "Estimate Sent") then
        (failure "Estimate has already been approved", st)
      else
        let dateUpdates := getStatusDateUpdates "Approved" (now env) in
        (succeed,
         Db.updateJob id
           (fun j => set_updatedAt (getTime (now env))
                       (set_dateUpdates dateUpdates
                         (set_status "Approved" j))) st)
  end.

(** ** [jobs.ts] *)

Definition getJobById (id : Z) (st : Store) : option JobWithDetails :=
  getEstimateById id st.

Definition updateJobStatus (env : Env) (id : Z) (newStatus : string) (st : Store)
  : ActionResult JobWithDetails * Store :=
  match Db.selectJob id st with
  | None => (failure "Job not found", st)
  | Some job =>
      let currentStatus := status job in
      if negb (canTransitionTo currentStatus newStatus) then
        (failure ("Cannot transition from " +:+ Js.dquote +:+ currentStatus
                  +:+ Js.dquote +:+ " to " +:+ Js.dquote +:+ newStatus
                  +:+ Js.dquote +:+ ". Status must progress in order."), st)
      else
        let dateUpdates := getStatusDateUpdates newStatus (now env) in
        let st' := Db.updateJob id
                     (fun j => set_updatedAt (getTime (now env))
                                 (set_dateUpdates dateUpdates
                                   (set_status newStatus j))) st in
        let updatedJob := getJobById id st' in
        (succeed_with updatedJob, st')
  end.

Definition startJob (env : Env) (id : Z) (st : Store) :=
  updateJobStatus env id "In Progress" st.

Definition completeJob (env : Env) (id : Z) (st : Store) :=
  updateJobStatus env id "Completed" st.

(** No row is read: the update is issued for whatever row has the id. *)
Definition updateJobNotes (env : Env) (id : Z) (notes' : string) (st : Store)
  : ActionResult unit * Store :=
  (succeed,
   Db.updateJob id
     (fun j => set_updatedAt (getTime (now env))
                 (set_notes (Js.orNull (Js.trim notes')) j)) st).

(** ** [invoices.ts] *)

Record OverdueStatus := {
  isOverdue : bool;
  daysOverdue : Z
}.

(** [today] is the [new Date()] of the body. [Math.floor] of the quotient is
    the floor division of [Z]; a [null] or empty [invoiceDate] is falsy, and
    the day-number model has only [null]. *)
Definition calculateOverdueStatus (today : JsDate) (job : Job) : OverdueStatus :=
  match String.eqb (status job) "Paid", invoiceDate job with
  | true, _ | _, None => {| isOverdue := false; daysOverdue := 0 |}
  | false, Some invoiceDate' =>
      let daysSinceInvoice :=
        (getTime today - Date_parse invoiceDate') / (1000 * 60 * 60 * 24) in
      let isOverdue' := daysSinceInvoice >? 30 in
      let daysOverdue' := if isOverdue' then daysSinceInvoice - 30 else 0 in
      {| isOverdue := isOverdue'; daysOverdue := daysOverdue' |}
  end.

(** [InvoiceWithDetails], without the projection of the customer row. *)
Definition InvoiceWithDetails : Type := Job * list LineItem * OverdueStatus.

Definition getInvoiceById (env : Env) (id : Z) (st : Store)
  : option InvoiceWithDetails :=
  match Db.selectJob id st with
  | None => None
  | Some job =>
      Some (job, Db.selectLineItems (job_id job) st,
            calculateOverdueStatus (now env) job)
  end.

Definition createInvoice (env : Env) (id : Z) (st : Store)
  : ActionResult InvoiceWithDetails * Store :=
  match Db.selectJob id st with
  | None => (failure "Job not found", st)
  | Some job =>
      if negb (String.eqb (status job) "Completed") then
        (failure "Job must be completed before invoicing", st)
      else
        let invoiceNumber' := generateInvoiceNumber (now env) st in
        let dateUpdates := getStatusDateUpdates "Invoiced" (now env) in
        let st' := Db.updateJob id
                     (fun j => set_updatedAt (getTime (now env))
                                 (set_dateUpdates dateUpdates
                                   (set_invoiceNumber (Some invoiceNumber')
                                     (set_status "Invoiced" j)))) st in
        let invoice := getInvoiceById env id st' in
        (succeed_with invoice, st')
  end.

(** [paymentDate'] is the optional argument; an empty text counts as absent,
    and the day-number model has only [None] for it. *)
Definition recordPayment (env : Env) (id : Z) (paymentDate' : option isodate)
    (st : Store) : ActionResult unit * Store :=
  match Db.selectJob id st with
  | None => (failure "Invoice not found", st)
  | Some job =>
      if negb (String.eqb (status job) "Invoiced") then
        (failure "Invoice is not in invoiced status", st)
      else
        let dateValue := match paymentDate' with
                         | Some d => d
                         | None => toISODate (now env)
                         end in
        (succeed,
         Db.updateJob id
           (fun j => set_updatedAt (getTime (now env))
                       (set_paymentDate (Some dateValue)
                         (set_status "Paid" j))) st)
  end.

Definition updateInvoiceNotes (env : Env) (id : Z) (notes' : string) (st : Store)
  : ActionResult unit * Store :=
  match Db.selectJob id st with
  | None => (failure "Invoice not found", st)
  | Some job =>
      if String.eqb (status job) "Paid" then
        (failure "Cannot edit paid invoice", st)
      else
        (succeed,
         Db.updateJob id
           (fun j => set_updatedAt (getTime (now env))
                       (set_notes (Js.orNull (Js.trim notes')) j)) st)
  end.

(** ** The actions as commands

    The mutating server actions, as the pages invoke them, and the stores that
    a sequence of them builds from the empty database. *)

Inductive Command :=
| CreateEstimate (customer : Z) (items : list LineItemInput) (notes' : option string)
| UpdateEstimate (id : Z) (items : option (list LineItemInput)) (notes' : option string)
| DeleteEstimate (id : Z)
| MarkEstimateAsSent (id : Z)
| ApproveEstimate (id : Z)
| UpdateJobStatus (id : Z) (newStatus : string)
| StartJob (id : Z)
| CompleteJob (id : Z)
| UpdateJobNotes (id : Z) (notes' : string)
| CreateInvoice (id : Z)
| RecordPayment (id : Z) (paymentDate' : option isodate)
| UpdateInvoiceNotes (id : Z) (notes' : string).

Definition exec (env : Env) (c : Command) (st : Store) : Store :=
  match c with
  | CreateEstimate customer items n => (createEstimate env customer items n st).2
  | UpdateEstimate id items n => (updateEstimate env id items n st).2
  | DeleteEstimate id => (deleteEstimate id st).2
  | MarkEstimateAsSent id => (markEstimateAsSent env id st).2
  | ApproveEstimate id => (approveEstimate env id st).2
  | UpdateJobStatus id s => (updateJobStatus env id s st).2
  | StartJob id => (startJob env id st).2
  | CompleteJob id => (completeJob env id st).2
  | UpdateJobNotes id n => (updateJobNotes env id n st).2
  | CreateInvoice id => (createInvoice env id st).2
  | RecordPayment id d => (recordPayment env id d st).2
  | UpdateInvoiceNotes id n => (updateInvoiceNotes env id n st).2
  end.

Definition run (cs : list (Env * Command)) (st : Store) : Store :=
  fold_left (fun acc ec => exec ec.1 ec.2 acc) cs st.

Inductive reachable : Store -> Prop :=
| reachable_empty : reachable empty_store
| reachable_exec env c st : reachable st -> reachable (exec env c st).

(** ** Predicates of the specification *)

(** [s'] comes right after [s] in the fixed order. *)
Definition immediate_successor (s s' : string) : Prop :=
  exists i : nat, STATUS_ORDER !! i = Some s /\ STATUS_ORDER !! (S i) = Some s'.

(** [sub] occurs in [s]. *)
Definition occurs_in (sub s : string) : Prop :=
  exists pre post : string, s = pre +:+ sub +:+ post.

(** ** Sample data *)

Module Sample.

(** 14 July 2025, 00:00 UTC. *)
Definition today : JsDate :=
  {| getTime := 1752451200000; getFullYear := 2025; getMonth := 6; getDate := 14 |}.

Definition env : Env := {| now := today; random := 1 # 2 |}.

Definition job (id : Z) (st : string) : Job :=
  {| job_id := id;
     customerId := 7;
     estimateNumber :=
       "2506" +:+ Js.padStart 2 "0" (Js.toString (1 + id / 40)) +:+ "T"
       +:+ Js.toString (100 + id mod 900) +:+ "A";
     invoiceNumber := None;
     estimateDate := 20240 + id / 40;
     approvalDate := None;
     startDate := None;
     completionDate := None;
     invoiceDate := None;
     paymentDate := None;
     status := st;
     totalAmount := "350.50";
     notes := Some "as agreed";
     createdAt := 1751328000000;
     updatedAt := 1751328000000 |}.

(** A database with the single job [1], in status [st]. *)
Definition store (st : string) : Store :=
  {| jobs := {[ 1 := job 1 st ]};
     lineItems := [];
     nextJobId := 2;
     nextLineItemId := 1 |}.

Definition item (a : Q) : LineItemInput :=
  {| action := "Deck"; amount := a; description := "Replace boards" |}.

(** The store after [n] estimates were created on [today]. *)
Definition estimates_created (n : nat) : Store :=
  run (replicate n (env, CreateEstimate 7 [item 100] None)) empty_store.

(** A job invoiced on [today] under the sequence number [k]. *)
Definition invoiced_job (k : Z) : Job :=
  set_invoiceDate (Some (toISODate today))
    (set_invoiceNumber
       (Some (datePrefix today +:+ Js.padStart 3 "0" (Js.toString k)))
       (job k "Invoiced")).

(** A store with [n] jobs invoiced on [today], numbered 001 onward. *)
Definition invoiced_today (n : Z) : Store :=
  {| jobs := list_to_map ((fun k => (k, invoiced_job k)) <$> seqZ 1 n);
     lineItems := [];
     nextJobId := n + 1;
     nextLineItemId := 1 |}.

(** The job [1] taken through approval, start and completion. *)
Definition completed : Store :=
  run [ (env, CreateEstimate 7 [item 100; item 250.5] None);
        (env, ApproveEstimate 1);
        (env, StartJob 1);
        (env, CompleteJob 1) ] empty_store.

End Sample.

(** ** Invariant of the stores the actions build *)

(** A job that carries an invoice number has been invoiced. *)
Definition invoiced_if_numbered (j : Job) : Prop :=
  invoiceNumber j = None \/ status j = "Invoiced" \/ status j = "Paid".

(** Every id is below the serial counter, and every job satisfies
    [invoiced_if_numbered]. *)
Definition store_inv (st : Store) : Prop :=
  forall (id : Z) (j : Job), jobs st !! id = Some j ->
    id < nextJobId st /\ invoiced_if_numbered j.

(** What an update of one row may do: keep [invoiced_if_numbered], and keep
    an invoice number that is set. *)
Definition job_step (j j' : Job) : Prop :=
  invoiced_if_numbered j ->
  invoiced_if_numbered j' /\
  forall n : string, invoiceNumber j = Some n -> invoiceNumber j' = Some n.

(** The four shapes of the effect of a command on the [jobs] relation. *)
Definition jobs_effect (st st' : Store) : Prop :=
  (jobs st' = jobs st /\ nextJobId st' = nextJobId st) \/
  (exists (id : Z) (f : Job -> Job),
     jobs st' = alter f id (jobs st) /\ nextJobId st' = nextJobId st /\
     forall j : Job, jobs st !! id = Some j -> job_step j (f j)) \/
  (exists j : Job,
     jobs st' = <[nextJobId st := j]> (jobs st) /\
     nextJobId st' = nextJobId st + 1 /\ invoiceNumber j = None) \/
  (exists (id : Z) (j : Job),
     jobs st !! id = Some j /\ canDeleteJob (status j) = true /\
     jobs st' = delete id (jobs st) /\ nextJobId st' = nextJobId st).

(** ** Predicates of the specification, line items *)

(** What [createEstimate] requires of a line item. *)
Definition valid_item (item : LineItemInput) : Prop :=
  Js.trim (action item) <> EmptyString /\
  (0 <= amount item)%Q /\
  Js.trim (description item) <> EmptyString.

(** The sum of the amounts. *)
Definition sum_of_amounts (items : list LineItemInput) : Q :=
  foldr (fun item acc => (amount item + acc)%Q) 0%Q items.

(** The nearest hundredth (the larger one on a tie) of a magnitude. *)
Definition round2 (x : Q) : Q := Qfloor (Qabs x * 100 + (1 # 2)) # 100.

(** An amount in whole cents. *)
Definition whole_cents (x : Q) : Prop := exists c : Z, (x == c # 100)%Q.

(** ** Predicates of the specification, identifiers *)

(** Calendar fields of a clock reading: a year of two digits or more, a
    month from 0 to 11 and a day of the month from 1 to 31. *)
Definition calendar_date (d : JsDate) : Prop :=
  10 <= getFullYear d /\ 0 <= getMonth d <= 11 /\ 1 <= getDate d <= 31.

(** The decimal digit character of [d]. *)
Definition digitChar (d : Z) : Ascii.ascii := pretty_N_char (Z.to_N d).

(** The two and three decimal digits of a number below 100 and 1000. *)
Definition twoDigits (m : Z) : string :=
  String (digitChar (m / 10)) (String (digitChar (m mod 10)) EmptyString).

Definition threeDigits (k : Z) : string :=
  String (digitChar (k / 100)) (twoDigits (k mod 100)).

(** ** Proof steps *)

(** The seven cases of a membership in [JOB_STATUSES], once it is a
    disjunction of equations. *)
Ltac seven_cases H :=
  destruct H as [->|[->|[->|[->|[->|[->| ->]]]]]].

(** The first and second shape of [jobs_effect]. *)
Ltac effect_same := left; split; reflexivity.
Ltac effect_alter :=
  right; left; eexists _, _; split; [reflexivity|]; split; [reflexivity|].

(** * The rest of the cited modules *)

(** ** [workflow.ts], status classes *)

Definition isEstimate (status : string) : bool :=
  String.eqb status "Estimate Created" || String.eqb status "Estimate Sent".

Definition isActiveJob (status : string) : bool :=
  String.eqb status "Approved" || String.eqb status "In Progress"
  || String.eqb status "Completed" || String.eqb status "Invoiced".

Definition isInvoiced (status : string) : bool :=
  String.eqb status "Invoiced" || String.eqb status "Paid".

(** The position of a status in the workflow. *)
Definition statusIndex (status : string) : Z := Js.indexOf STATUS_ORDER status.

(** ** [numbers.ts], the parsers *)

(** [parseInt] on an unsigned decimal numeral, which is what the groups of
    the two patterns hold: the value of the leading digits; [None] when the
    text does not start with a digit. *)
Fixpoint parseInt_digits (s : string) (acc : Z) : Z :=
  match s with
  | EmptyString => acc
  | String c r =>
      match Js.digitValue c with
      | Some d => parseInt_digits r (10 * acc + d)
      | None => acc
      end
  end.

Definition parseInt (s : string) : option Z :=
  match s with
  | EmptyString => None
  | String c _ =>
      match Js.digitValue c with
      | Some _ => Some (parseInt_digits s 0)
      | None => None
      end
  end.

(** The group [(\d{n})] at the head of [s], and the rest of [s]. *)
Fixpoint takeDigits (n : nat) (s : string) : option (string * string) :=
  match n with
  | O => Some (EmptyString, s)
  | S n' =>
      match s with
      | String c r =>
          match Js.digitValue c with
          | Some _ =>
              match takeDigits n' r with
              | Some (g, rest) => Some (String c g, rest)
              | None => None
              end
          | None => None
          end
      | EmptyString => None
      end
  end.

Record EstimateNumberParts := {
  en_year : Z;
  en_month : Z;
  en_day : Z;
  en_random : string;
  en_sequence : string
}.

Record InvoiceNumberParts := {
  in_year : Z;
  in_month : Z;
  in_day : Z;
  in_sequence : Z
}.

(** The three date groups [(\d{2})(\d{2})(\d{2})] with their [parseInt], and
    the rest of the text. *)
Definition takeDate (s : string) : option (Z * Z * Z * string) :=
  match takeDigits 2 s with
  | Some (yy, r1) =>
      match takeDigits 2 r1 with
      | Some (mm, r2) =>
          match takeDigits 2 r2 with
          | Some (dd, r3) =>
              match parseInt yy, parseInt mm, parseInt dd with
              | Some y, Some m, Some d => Some (2000 + y, m, d, r3)
              | _, _, _ => None
              end
          | None => None
          end
      | None => None
      end
  | None => None
  end.

(** [estimateNumber.match(/^(\d{2})(\d{2})(\d{2})T(\d{3})([A-Z])$/)]. *)
Definition parseEstimateNumber (estimateNumber : string)
  : option EstimateNumberParts :=
  match takeDate estimateNumber with
  | Some (y, m, d, String t r) =>
      if Ascii.eqb t "T" then
        match takeDigits 3 r with
        | Some (random, String l EmptyString) =>
            if isUpperCase l then
              Some {| en_year := y; en_month := m; en_day := d;
                      en_random := random;
                      en_sequence := String l EmptyString |}
            else None
        | _ => None
        end
      else None
  | _ => None
  end.

(** [invoiceNumber.match(/^(\d{2})(\d{2})(\d{2})(\d{3})$/)]. *)
Definition parseInvoiceNumber (invoiceNumber : string)
  : option InvoiceNumberParts :=
  match takeDate invoiceNumber with
  | Some (y, m, d, r) =>
      match takeDigits 3 r with
      | Some (seq, EmptyString) =>
          match parseInt seq with
          | Some n => Some {| in_year := y; in_month := m; in_day := d;
                              in_sequence := n |}
          | None => None
          end
      | _ => None
      end
  | None => None
  end.

(** A text of decimal digits. *)
Fixpoint digits_only (s : string) : bool :=
  match s with
  | EmptyString => true
  | String c r =>
      match Js.digitValue c with
      | Some _ => digits_only r
      | None => false
      end
  end.

(** ** Reading a row *)

(** [row[field]] for the name of a date column; [None] is [null], and also
    what a name that is no date column gives. *)
Definition dateColumn (field : string) (j : Job) : option isodate :=
  if String.eqb field "estimateDate" then Some (estimateDate j)
  else if String.eqb field "approvalDate" then approvalDate j
  else if String.eqb field "startDate" then startDate j
  else if String.eqb field "completionDate" then completionDate j
  else if String.eqb field "invoiceDate" then invoiceDate j
  else if String.eqb field "paymentDate" then paymentDate j
  else None.

(** The rows of [insertLineItems] with their serials, from [next] on. *)
Fixpoint assignIds (rows : list (Z -> LineItem)) (next : Z) : list LineItem :=
  match rows with
  | [] => []
  | mk :: rows' => mk next :: assignIds rows' (next + 1)
  end.

(** ** The life of a job *)

(** A column that is not [null]. *)
Definition isSet {A : Type} (o : option A) : bool :=
  match o with Some _ => true | None => false end.

(** The milestone dates of a job are the ones of the statuses it has
    reached, and an invoice number waits for "Invoiced". *)
Definition well_staged (j : Job) : bool :=
  let i := statusIndex (status j) in
  (0 <=? i)
  && Bool.eqb (isSet (approvalDate j)) (2 <=? i)
  && Bool.eqb (isSet (startDate j)) (3 <=? i)
  && Bool.eqb (isSet (completionDate j)) (4 <=? i)
  && Bool.eqb (isSet (invoiceDate j)) (5 <=? i)
  && Bool.eqb (isSet (paymentDate j)) (6 <=? i)
  && implb (isSet (invoiceNumber j)) (5 <=? i).

(** The status changes that some action performs: the ones
    [canTransitionTo] accepts, and the approval of an estimate that was
    never marked as sent. *)
Definition advance (s s' : string) : Prop :=
  canTransitionTo s s' = true \/ (s = "Estimate Created" /\ s' = "Approved").

(** The updates of a row that the actions issue; [mint] is the invoice
    number that [createInvoice] would write. *)
Inductive job_update (mint : string) (j : Job) : Job -> Prop :=
| update_details (t : Z) (n : option string) (a : string) :
    job_update mint j (set_updatedAt t (set_notes n (set_totalAmount a j)))
| update_notes (t : Z) (n : option string) :
    job_update mint j (set_updatedAt t (set_notes n j))
| update_status (t : Z) (d : JsDate) (s : string) :
    advance (status j) s ->
    job_update mint j
      (set_updatedAt t
         (set_dateUpdates (getStatusDateUpdates s d) (set_status s j)))
| update_invoice (t : Z) (d : JsDate) :
    status j = "Completed" ->
    job_update mint j
      (set_updatedAt t
         (set_dateUpdates (getStatusDateUpdates "Invoiced" d)
            (set_invoiceNumber (Some mint) (set_status "Invoiced" j))))
| update_payment (t : Z) (d : isodate) :
    status j = "Invoiced" ->
    job_update mint j
      (set_updatedAt t (set_paymentDate (Some d) (set_status "Paid" j))).

(** The row that [createEstimate] inserts. *)
Definition fresh_job (id : Z) (j : Job) : Prop :=
  job_id j = id /\ status j = "Estimate Created" /\ invoiceNumber j = None /\
  approvalDate j = None /\ startDate j = None /\ completionDate j = None /\
  invoiceDate j = None /\ paymentDate j = None.

(** The four shapes of the effect of a command on the [jobs] relation, with
    the update spelled out. *)
Definition lifecycle_effect (mint : string) (st st' : Store) : Prop :=
  (jobs st' = jobs st /\ nextJobId st' = nextJobId st) \/
  (exists (id : Z) (j j' : Job),
     jobs st !! id = Some j /\ job_update mint j j' /\
     jobs st' = <[id := j']> (jobs st) /\ nextJobId st' = nextJobId st) \/
  (exists j : Job,
     fresh_job (nextJobId st) j /\
     jobs st' = <[nextJobId st := j]> (jobs st) /\
     nextJobId st' = nextJobId st + 1) \/
  (exists (id : Z) (j : Job),
     jobs st !! id = Some j /\ canDeleteJob (status j) = true /\
     jobs st' = delete id (jobs st) /\ nextJobId st' = nextJobId st).

(** Every row has its key as id, a key below the serial counter, and is
    [well_staged]. *)
Definition lifecycle_inv (st : Store) : Prop :=
  forall (id : Z) (j : Job), jobs st !! id = Some j ->
    id < nextJobId st /\ job_id j = id /\ well_staged j = true.

(** What a later version [j'] of a row [j] keeps. *)
Definition job_progress (j j' : Job) : Prop :=
  statusIndex (status j) <= statusIndex (status j') /\
  job_id j' = job_id j /\
  customerId j' = customerId j /\
  estimateNumber j' = estimateNumber j /\
  createdAt j' = createdAt j /\
  (forall (field : string) (d : isodate),
     dateColumn field j = Some d -> dateColumn field j' = Some d) /\
  (forall n : string, invoiceNumber j = Some n -> invoiceNumber j' = Some n).

(** The first shape of [lifecycle_effect]. *)
Ltac lifecycle_same := left; split; reflexivity.

(** Case analysis on the name of a date column, on the columns of a
    [well_staged] row, and the goal of [job_update_progress]. *)
Ltac field_cases field :=
  unfold dateColumn;
  destruct (String.eqb field "estimateDate");
  destruct (String.eqb field "approvalDate");
  destruct (String.eqb field "startDate");
  destruct (String.eqb field "completionDate");
  destruct (String.eqb field "invoiceDate");
  destruct (String.eqb field "paymentDate");
  cbn; congruence.

Ltac staged_cases j Hw :=
  destruct j as [jid cust en [inn|] ed [ad|] [sd|] [cd|] [ivd|] [pd|] s ta no ca ua];
  cbn [status] in *; subst; try discriminate Hw.

Ltac progress_goal :=
  split; [reflexivity|];
  unfold job_progress; cbn;
  split; [vm_compute; discriminate|];
  do 4 (split; [reflexivity|]);
  split; [intros field d0; field_cases field | intros n0; congruence].

(** The goal [is_Some o <-> k <= i] on closed terms. *)
Ltac closed_iff :=
  split;
  [ intros [? Hsome]; first [discriminate Hsome | vm_compute; discriminate]
  | intros Hle; first [exfalso; apply Hle; reflexivity | by eexists] ].

(** ** Invoice numbers in use *)

(** [select count( * ) ... like 'prefix%'] on the rows [m]. *)
Definition countRows (col : Job -> option string) (datePrefix : string)
    (m : gmap Z Job) : Z :=
  Db.countLike col datePrefix
    {| jobs := m; lineItems := []; nextJobId := 0; nextLineItemId := 0 |}.

(** What one row adds to the count. *)
Definition hit (col : Job -> option string) (datePrefix : string) (j : Job) : Z :=
  match col j with
  | Some s => if String.prefix datePrefix s then 1 else 0
  | None => 0
  end.

(** The sequence part of an invoice number. *)
Definition sequenceText (k : Z) : string := Js.padStart 3 "0" (Js.toString k).

(** The row [id] carries the invoice number [n]. *)
Definition numbered (st : Store) (id : Z) (n : string) : Prop :=
  exists j : Job, jobs st !! id = Some j /\ invoiceNumber j = Some n.

(** Every invoice number is a six-character prefix and a sequence number
    within the count of its prefix; every sequence number up to the count is
    in use; no two rows share a number. *)
Definition numbering (st : Store) : Prop :=
  (forall (id : Z) (n : string), numbered st id n ->
     exists (P : string) (k : Z),
       String.length P = 6%nat /\ n = P +:+ sequenceText k /\
       1 <= k <= Db.countLike invoiceNumber P st) /\
  (forall (P : string) (k : Z),
     String.length P = 6%nat -> 1 <= k <= Db.countLike invoiceNumber P st ->
     exists id : Z, numbered st id (P +:+ sequenceText k)) /\
  (forall (id1 id2 : Z) (n : string),
     numbered st id1 n -> numbered st id2 n -> id1 = id2).

(** Commands issued on calendar dates. *)
Definition calendar_run (cs : list (Env * Command)) : Prop :=
  Forall (fun ec => calendar_date (now ec.1)) cs.

(** ** Sample runs *)

(** One job taken from the estimate to the invoice on [Sample.today]. *)
Definition invoiced_commands : list (Env * Command) :=
  [ (Sample.env, CreateEstimate 7 [Sample.item 100; Sample.item 250.5] None);
    (Sample.env, ApproveEstimate 1);
    (Sample.env, StartJob 1);
    (Sample.env, CompleteJob 1);
    (Sample.env, CreateInvoice 1) ].

(** ** Line items of the stores the actions build *)

(** Every job has line items numbered 1, 2, ... and at least one; every
    line item belongs to a job. *)
Definition items_inv (st : Store) : Prop :=
  (forall (id : Z) (j : Job), jobs st !! id = Some j ->
     exists N : Z, 1 <= N /\
       itemNumber <$> Db.selectLineItems id st = seqZ 1 N) /\
  (forall r : LineItem, r ∈ lineItems st -> is_Some (jobs st !! jobId r)).

(** ** [dashboard.ts] and the statistics of [jobs.ts] *)

(** [db.select().from(jobs)]: all rows, in no particular order. *)
Definition allJobs (st : Store) : list Job := (map_to_list (jobs st)).*2.

(** [array.includes(s)] on an array of strings. *)
Definition includes (l : list string) (s : string) : bool :=
  existsb (String.eqb s) l.

(** [array.filter(p).length]. *)
Definition countIf (p : Job -> bool) (l : list Job) : Z :=
  Z.of_nat (length (List.filter p l)).

(** [array.reduce((sum, job) => sum + parseFloat(job.totalAmount || '0'), 0)];
    [None] is [NaN], or a numeral that the syntax of [Js.parseFloat] does not
    cover. *)
Definition totalValue (l : list Job) : option Q :=
  fold_left
    (fun sum job =>
       match sum, Js.parseFloat (if Js.truthy (totalAmount job)
                                 then totalAmount job else "0") with
       | Some s, Some v => Some (s + v)%Q
       | _, _ => None
       end) l (Some 0%Q).

Record QuickActionCounts := {
  estimatesToSend : Z;
  jobsToStart : Z;
  jobsToComplete : Z;
  jobsToInvoice : Z;
  invoicesToCollect : Z
}.

Definition getQuickActionCounts (st : Store) : QuickActionCounts :=
  let allJobs := allJobs st in
  {| estimatesToSend :=
       countIf (fun job => String.eqb (status job) "Estimate Created") allJobs;
     jobsToStart := countIf (fun job => String.eqb (status job) "Approved") allJobs;
     jobsToComplete :=
       countIf (fun job => String.eqb (status job) "In Progress") allJobs;
     jobsToInvoice := countIf (fun job => String.eqb (status job) "Completed") allJobs;
     invoicesToCollect :=
       countIf (fun job => String.eqb (status job) "Invoiced") allJobs |}.

Record DashboardStats := {
  pendingEstimates : Z;
  activeJobs : Z;
  unpaidInvoices : Z;
  unpaidTotal : option Q;
  monthlyRevenue : option Q
}.

(** [firstOfMonth] is the date that the body derives from the clock, the
    first day of the current month; dates compare as their day numbers. *)
Definition getDashboardStats (firstOfMonth : isodate) (st : Store)
  : DashboardStats :=
  let allJobs := allJobs st in
  let pendingEstimates :=
    countIf (fun job => String.eqb (status job) "Estimate Created"
                        || String.eqb (status job) "Estimate Sent") allJobs in
  let activeJobs :=
    countIf (fun job =>
               includes ["Approved"; "In Progress"; "Completed"; "Invoiced"]
                 (status job)) allJobs in
  let unpaidInvoices :=
    List.filter (fun job => String.eqb (status job) "Invoiced") allJobs in
  let unpaidTotal := totalValue unpaidInvoices in
  let monthlyPaid :=
    List.filter
      (fun job => String.eqb (status job) "Paid"
                  && match paymentDate job with
                     | Some d => firstOfMonth <=? d
                     | None => false
                     end) allJobs in
  let monthlyRevenue := totalValue monthlyPaid in
  {| pendingEstimates := pendingEstimates;
     activeJobs := activeJobs;
     unpaidInvoices := Z.of_nat (length unpaidInvoices);
     unpaidTotal := unpaidTotal;
     monthlyRevenue := monthlyRevenue |}.

Record JobStats := {
  activeCount : Z;
  inProgressCount : Z;
  completedCount : Z;
  activeValue : option Q
}.

Definition getJobStats (st : Store) : JobStats :=
  let allJobs := allJobs st in
  let active (job : Job) :=
    includes ["Approved"; "In Progress"; "Completed"; "Invoiced"] (status job) in
  {| activeCount := countIf active allJobs;
     inProgressCount :=
       countIf (fun job => String.eqb (status job) "In Progress") allJobs;
     completedCount :=
       countIf (fun job => String.eqb (status job) "Completed") allJobs;
     activeValue := totalValue (List.filter active allJobs) |}.

(** The number of rows on whose id [f] holds. *)
Definition countIds (f : Z -> bool) (st : Store) : Z :=
  Z.of_nat (length (List.filter (fun kv => f kv.1) (map_to_list (jobs st)))).

(** ** [format.ts] and [validation.ts]: phone numbers *)

(** [phone.replace(/\D/g, '')]: the decimal digits of the text, in order. *)
Fixpoint digitsOf (phone : string) : string :=
  match phone with
  | EmptyString => EmptyString
  | String c r =>
      match Js.digitValue c with
      | Some _ => String c (digitsOf r)
      | None => digitsOf r
      end
  end.

(** [s.slice(from, to)] for [0 <= from <= to]. *)
Definition slice (from to : nat) (s : string) : string :=
  String.substring from (to - from) s.

Definition formatPhoneNumber (phone : string) : string :=
  let digits := digitsOf phone in
  if negb (String.length digits =? 10)%nat then phone
  else "(" +:+ slice 0 3 digits +:+ ") " +:+ slice 3 6 digits +:+ "-"
       +:+ slice 6 10 digits.

Definition validatePhoneNumber (phone : string) : bool :=
  (String.length (digitsOf phone) =? 10)%nat.

(** * Properties *)

(** ** Strings *)

Section Strings.

Lemma append_assoc (a b c : string) : (a +:+ b) +:+ c = a +:+ (b +:+ c).
Proof.
  induction a as [|x a IH]; [reflexivity|].
  change (String x ((a +:+ b) +:+ c) = String x (a +:+ (b +:+ c))).
  by rewrite IH.
Qed.

Lemma append_cons (x : Ascii.ascii) (a b : string) :
  String x a +:+ b = String x (a +:+ b).
Proof. reflexivity. Qed.

Lemma append_nil_l (a : string) : EmptyString +:+ a = a.
Proof. reflexivity. Qed.

Lemma append_nil_r (a : string) : a +:+ EmptyString = a.
Proof.
  induction a as [|x a IH]; [reflexivity|].
  rewrite append_cons. by rewrite IH.
Qed.

Lemma length_append (a b : string) :
  String.length (a +:+ b) = (String.length a + String.length b)%nat.
Proof.
  induction a as [|x a IH]; [reflexivity|].
  rewrite append_cons. simpl. by rewrite IH.
Qed.

End Strings.

(** ** The status workflow *)

Section Workflow.

Lemma indexOf_from_notin (l : list string) (x : string) (i : Z) :
  x ∉ l -> Js.indexOf_from l x i = -1.
Proof.
  revert i. induction l as [|y l IH]; intros i Hx; [reflexivity|].
  apply not_elem_of_cons in Hx as [Hne Hl]. simpl.
  destruct (String.eqb_spec y x) as [->|_]; [contradiction|].
  by apply IH.
Qed.

Lemma indexOf_notin (l : list string) (x : string) :
  x ∉ l -> Js.indexOf l x = -1.
Proof. apply indexOf_from_notin. Qed.

Lemma JOB_STATUSES_cases (s : string) :
  s ∈ JOB_STATUSES ->
  s = "Estimate Created" \/ s = "Estimate Sent" \/ s = "Approved" \/
  s = "In Progress" \/ s = "Completed" \/ s = "Invoiced" \/ s = "Paid".
Proof.
  unfold JOB_STATUSES. rewrite !elem_of_cons, elem_of_nil. tauto.
Qed.

(** A position of the order and its successor, read off a lookup. *)
Lemma immediate_successor_inv (s s' : string) :
  immediate_successor s s' ->
  (s, s') ∈ [ ("Estimate Created", "Estimate Sent"); ("Estimate Sent", "Approved");
              ("Approved", "In Progress"); ("In Progress", "Completed");
              ("Completed", "Invoiced"); ("Invoiced", "Paid") ].
Proof.
  intros (i & Hi & Hsi).
  do 7 (destruct i as [|i]; [simpl in *; simplify_eq; set_solver|]).
  discriminate.
Qed.

(** From a status of the order, a transition is accepted to its successor
    only, whatever text is requested. *)
Lemma canTransitionTo_successor (s s' : string) :
  s ∈ JOB_STATUSES ->
  canTransitionTo s s' = true <-> immediate_successor s s'.
Proof.
  intros Hs. split.
  - intros Hc. unfold canTransitionTo in Hc. apply Z.eqb_eq in Hc.
    assert (Hs' : s' ∈ STATUS_ORDER).
    { destruct (decide (s' ∈ STATUS_ORDER)) as [|Hn]; [done|].
      apply indexOf_notin in Hn. rewrite Hn in Hc.
      apply JOB_STATUSES_cases in Hs.
      destruct Hs as [->|[->|[->|[->|[->|[->| ->]]]]]]; discriminate Hc. }
    apply JOB_STATUSES_cases in Hs, Hs'.
    destruct Hs as [->|[->|[->|[->|[->|[->| ->]]]]]];
      destruct Hs' as [->|[->|[->|[->|[->|[->| ->]]]]]]; try discriminate Hc.
    + by exists 0%nat.
    + by exists 1%nat.
    + by exists 2%nat.
    + by exists 3%nat.
    + by exists 4%nat.
    + by exists 5%nat.
  - intros Hsucc. apply immediate_successor_inv in Hsucc.
    rewrite !elem_of_cons, elem_of_nil in Hsucc.
    destruct Hsucc as [H|[H|[H|[H|[H|[H|[]]]]]]]; inversion H; reflexivity.
Qed.

End Workflow.

(** C1: on the seven statuses, [canTransitionTo s s'] holds exactly when [s']
    is the immediate successor of [s] in the fixed order, that is when its
    index is the index of [s] plus one; it is false for staying put, for
    skipping ahead, for moving backward, and for every target from "Paid". *)
Theorem canTransitionTo_linear (s s' : string) :
  s ∈ JOB_STATUSES -> s' ∈ JOB_STATUSES ->
  (canTransitionTo s s' = true <-> immediate_successor s s') /\
  (canTransitionTo s s' = true <->
     Js.indexOf STATUS_ORDER s' = Js.indexOf STATUS_ORDER s + 1) /\
  canTransitionTo s s = false /\
  (Js.indexOf STATUS_ORDER s' > Js.indexOf STATUS_ORDER s + 1 ->
     canTransitionTo s s' = false) /\
  (Js.indexOf STATUS_ORDER s' < Js.indexOf STATUS_ORDER s ->
     canTransitionTo s s' = false) /\
  canTransitionTo "Paid" s' = false.
Proof.
  intros Hs Hs'.
  assert (Hidx : canTransitionTo s s' = true <->
            Js.indexOf STATUS_ORDER s' = Js.indexOf STATUS_ORDER s + 1).
  { unfold canTransitionTo. apply Z.eqb_eq. }
  split; [|split; [exact Hidx|]].
  - by apply canTransitionTo_successor.
  - split; [by (apply JOB_STATUSES_cases in Hs; seven_cases Hs)|].
    split; [|split].
    + intros Hgt. apply not_true_is_false. intros E. apply Hidx in E. lia.
    + intros Hlt. apply not_true_is_false. intros E. apply Hidx in E. lia.
    + by (apply JOB_STATUSES_cases in Hs'; seven_cases Hs').
Qed.

Lemma canTransitionTo_linear_witness :
  (canTransitionTo "Approved" "In Progress" = true <->
     immediate_successor "Approved" "In Progress") /\
  canTransitionTo "Approved" "Approved" = false.
Proof.
  assert (H1 : "Approved" ∈ JOB_STATUSES) by (unfold JOB_STATUSES; repeat constructor).
  assert (H2 : "In Progress" ∈ JOB_STATUSES) by (unfold JOB_STATUSES; repeat constructor).
  pose proof (canTransitionTo_linear "Approved" "In Progress" H1 H2) as H.
  split; [exact (proj1 H) | exact (proj1 (proj2 (proj2 H)))].
Defined.

(** ** The store *)

Section StoreLemmas.

Lemma jobs_updateJob_eq (id : Z) (f : Job -> Job) (st : Store) :
  jobs (Db.updateJob id f st) !! id = f <$> jobs st !! id.
Proof. apply lookup_alter_eq. Qed.

(** Spreading date updates touches date columns only. *)
Lemma set_dateColumn_keeps (field : string) (v : isodate) (j : Job) :
  let j' := set_dateColumn field v j in
  job_id j' = job_id j /\ customerId j' = customerId j /\
  estimateNumber j' = estimateNumber j /\ invoiceNumber j' = invoiceNumber j /\
  status j' = status j /\ totalAmount j' = totalAmount j /\
  notes j' = notes j /\ createdAt j' = createdAt j /\ updatedAt j' = updatedAt j.
Proof.
  unfold set_dateColumn. repeat case_match; repeat split; reflexivity.
Qed.

Lemma set_dateUpdates_keeps (upd : list (string * isodate)) (j : Job) :
  let j' := set_dateUpdates upd j in
  job_id j' = job_id j /\ customerId j' = customerId j /\
  estimateNumber j' = estimateNumber j /\ invoiceNumber j' = invoiceNumber j /\
  status j' = status j /\ totalAmount j' = totalAmount j /\
  notes j' = notes j /\ createdAt j' = createdAt j /\ updatedAt j' = updatedAt j.
Proof.
  unfold set_dateUpdates. revert j.
  induction upd as [|[k v] upd IH]; intros j; simpl; [tauto|].
  specialize (IH (set_dateColumn k v j)). simpl in IH.
  pose proof (set_dateColumn_keeps k v j) as Hk. simpl in Hk.
  intuition congruence.
Qed.

End StoreLemmas.

(** C10: a current status outside the seven values has index [-1], so
    [canTransitionTo current "Estimate Created"] is true (0 = -1 + 1) while
    [getNextStatus current] is [null]; [updateJobStatus] then moves a job with
    such a status into "Estimate Created". *)
Theorem unknown_status_transitions_to_initial (current : string) :
  current ∉ JOB_STATUSES ->
  Js.indexOf STATUS_ORDER current = -1 /\
  canTransitionTo current "Estimate Created" = true /\
  getNextStatus current = None /\
  forall (env : Env) (id : Z) (st : Store) (job : Job),
    jobs st !! id = Some job -> status job = current ->
    let r := updateJobStatus env id "Estimate Created" st in
    success r.1 = true /\
    status <$> jobs r.2 !! id = Some "Estimate Created".
Proof.
  intros Hnot.
  assert (Hidx : Js.indexOf STATUS_ORDER current = -1) by by apply indexOf_notin.
  assert (Hcan : canTransitionTo current "Estimate Created" = true).
  { unfold canTransitionTo. rewrite Hidx. reflexivity. }
  split; [exact Hidx|]. split; [exact Hcan|]. split.
  - unfold getNextStatus. rewrite Hidx. reflexivity.
  - intros env id st job Hjob Hst. simpl.
    unfold updateJobStatus, Db.selectJob. rewrite Hjob, Hst, Hcan. simpl.
    split; [reflexivity|].
    rewrite lookup_alter_eq, Hjob. reflexivity.
Qed.

Lemma unknown_status_transitions_to_initial_witness :
  canTransitionTo "Cancelled" "Estimate Created" = true /\
  getNextStatus "Cancelled" = None.
Proof.
  assert (H : "Cancelled" ∉ JOB_STATUSES).
  { unfold JOB_STATUSES. rewrite !not_elem_of_cons. repeat split; try discriminate.
    apply not_elem_of_nil. }
  pose proof (unknown_status_transitions_to_initial "Cancelled" H) as (_ & Hc & Hn & _).
  exact (conj Hc Hn).
Defined.

(** ** Invoice aging *)

(** C5: the overdue calculation depends on the status, the invoice date and
    the current time only; a paid job or a job without invoice date is not
    overdue, with 0 days; otherwise, with [days] the floor of the time since
    the invoice date in days, the job is overdue when [days > 30] and is then
    [days - 30] days overdue, 0 days otherwise; an unpaid job invoiced 31 days
    before now is overdue by 1 day. *)
Theorem calculateOverdueStatus_spec (today : JsDate) (job : Job) :
  (forall (today' : JsDate) (job' : Job),
     status job' = status job -> invoiceDate job' = invoiceDate job ->
     getTime today' = getTime today ->
     calculateOverdueStatus today' job' = calculateOverdueStatus today job) /\
  (status job = "Paid" \/ invoiceDate job = None ->
     calculateOverdueStatus today job = {| isOverdue := false; daysOverdue := 0 |}) /\
  (forall d : isodate,
     status job <> "Paid" -> invoiceDate job = Some d ->
     let daysSinceInvoice := (getTime today - Date_parse d) / msPerDay in
     calculateOverdueStatus today job =
       {| isOverdue := daysSinceInvoice >? 30;
          daysOverdue := if daysSinceInvoice >? 30 then daysSinceInvoice - 30 else 0 |}) /\
  (forall d : isodate,
     status job <> "Paid" -> invoiceDate job = Some d ->
     31 * msPerDay <= getTime today - Date_parse d < 32 * msPerDay ->
     calculateOverdueStatus today job = {| isOverdue := true; daysOverdue := 1 |}).
Proof.
  assert (Hgen : forall d : isodate,
     status job <> "Paid" -> invoiceDate job = Some d ->
     calculateOverdueStatus today job =
       {| isOverdue := (getTime today - Date_parse d) / msPerDay >? 30;
          daysOverdue := if (getTime today - Date_parse d) / msPerDay >? 30
                         then (getTime today - Date_parse d) / msPerDay - 30 else 0 |}).
  { intros d Hst Hd. unfold calculateOverdueStatus. rewrite Hd.
    destruct (String.eqb_spec (status job) "Paid") as [E|_]; [contradiction|].
    reflexivity. }
  split; [|split; [|split]].
  - intros today' job' Hs Hi Ht. unfold calculateOverdueStatus.
    by rewrite Hs, Hi, Ht.
  - intros [Hp|Hn]; unfold calculateOverdueStatus.
    + rewrite Hp. reflexivity.
    + rewrite Hn. by destruct (String.eqb (status job) "Paid").
  - exact Hgen.
  - intros d Hst Hd Hrange. rewrite (Hgen d Hst Hd).
    assert (Hdays : (getTime today - Date_parse d) / msPerDay = 31).
    { unfold msPerDay in *. symmetry.
      apply (Z.div_unique_pos _ _ 31 (getTime today - Date_parse d - 31 * (1000 * 60 * 60 * 24))); lia. }
    rewrite Hdays. reflexivity.
Qed.

Lemma calculateOverdueStatus_spec_witness :
  calculateOverdueStatus Sample.today
    (set_invoiceDate (Some (toISODate Sample.today - 31)) (Sample.job 1 "Invoiced"))
  = {| isOverdue := true; daysOverdue := 1 |}.
Proof.
  apply (proj2 (proj2 (proj2 (calculateOverdueStatus_spec Sample.today
           (set_invoiceDate (Some (toISODate Sample.today - 31))
              (Sample.job 1 "Invoiced")))))
           (toISODate Sample.today - 31)).
  - discriminate.
  - reflexivity.
  - vm_compute. split; [discriminate | reflexivity].
Defined.

(** ** Approval *)



(** ** Illegal transitions *)

(** C8: when the requested status is not the immediate successor of the
    current status of the job (for a current status of the fixed order, by
    position in the order; for any stored text, by the index arithmetic of
    the code), [updateJobStatus] returns a failure whose message names the
    current and the requested status, and the store is unchanged; [startJob]
    and [completeJob] are [updateJobStatus] with "In Progress" and
    "Completed". *)
Theorem updateJobStatus_illegal (env : Env) (id : Z) (newStatus : string)
    (st : Store) (job : Job) :
  jobs st !! id = Some job ->
  (status job ∈ JOB_STATUSES /\ ~ immediate_successor (status job) newStatus) \/
  Js.indexOf STATUS_ORDER newStatus <> Js.indexOf STATUS_ORDER (status job) + 1 ->
  let r := updateJobStatus env id newStatus st in
  success r.1 = false /\
  (exists msg : string,
     error r.1 = Some msg /\
     occurs_in (status job) msg /\ occurs_in newStatus msg) /\
  r.2 = st /\
  startJob env id st = updateJobStatus env id "In Progress" st /\
  completeJob env id st = updateJobStatus env id "Completed" st.
Proof.
  intros Hjob Hnot. simpl.
  assert (Hcan : canTransitionTo (status job) newStatus = false).
  { apply not_true_is_false. intros Hc.
    destruct Hnot as [[Hknown Hnot]|Hidx].
    - apply Hnot. by apply canTransitionTo_successor.
    - apply Hidx. unfold canTransitionTo in Hc. by apply Z.eqb_eq in Hc. }
  assert (Hr : updateJobStatus env id newStatus st =
    (failure ("Cannot transition from " +:+ Js.dquote +:+ status job
              +:+ Js.dquote +:+ " to " +:+ Js.dquote +:+ newStatus
              +:+ Js.dquote +:+ ". Status must progress in order."), st)).
  { unfold updateJobStatus, Db.selectJob. by rewrite Hjob, Hcan. }
  rewrite Hr. simpl.
  split; [reflexivity|]. split; [|repeat split].
  eexists. split; [reflexivity|]. split.
  - exists ("Cannot transition from " +:+ Js.dquote),
      (Js.dquote +:+ " to " +:+ Js.dquote +:+ newStatus +:+ Js.dquote
       +:+ ". Status must progress in order.").
    reflexivity.
  - exists ("Cannot transition from " +:+ Js.dquote +:+ status job
            +:+ Js.dquote +:+ " to " +:+ Js.dquote),
      (Js.dquote +:+ ". Status must progress in order.").
    by rewrite !append_assoc.
Qed.

Lemma updateJobStatus_illegal_witness :
  success (startJob Sample.env 1 (Sample.store "Estimate Created")).1 = false /\
  (startJob Sample.env 1 (Sample.store "Estimate Created")).2
    = Sample.store "Estimate Created".
Proof.
  assert (Hknown : status (Sample.job 1 "Estimate Created") ∈ JOB_STATUSES)
    by (unfold JOB_STATUSES; repeat constructor).
  assert (Hnot : ~ immediate_successor (status (Sample.job 1 "Estimate Created"))
                     "In Progress").
  { intros Hs. apply immediate_successor_inv in Hs.
    rewrite !elem_of_cons, elem_of_nil in Hs.
    destruct Hs as [H|[H|[H|[H|[H|[H|[]]]]]]]; discriminate H. }
  pose proof (updateJobStatus_illegal Sample.env 1 "In Progress"
                (Sample.store "Estimate Created")
                (Sample.job 1 "Estimate Created") eq_refl
                (or_introl (conj Hknown Hnot)))
    as (Hfail & _ & Hsame & _).
  exact (conj Hfail Hsame).
Defined.

(** ** Notes *)




(** ** Stores built by the actions *)

Section Reachable.

Lemma job_step_notes (t : Z) (n : option string) (j : Job) :
  job_step j (set_updatedAt t (set_notes n j)).
Proof. intros Hinv. split; [exact Hinv | auto]. Qed.

Lemma job_step_total (t : Z) (n : option string) (a : string) (j : Job) :
  job_step j (set_updatedAt t (set_notes n (set_totalAmount a j))).
Proof. intros Hinv. split; [exact Hinv | auto]. Qed.

(** A status change with date stamps, from a status the old invariant
    allows, to a status that keeps it. *)
Lemma job_step_status (t : Z) (upd : list (string * isodate)) (s : string) (j : Job) :
  (invoiced_if_numbered j -> invoiceNumber j <> None ->
     s = "Invoiced" \/ s = "Paid") ->
  job_step j (set_updatedAt t (set_dateUpdates upd (set_status s j))).
Proof.
  intros Hs Hinv. specialize (Hs Hinv).
  pose proof (set_dateUpdates_keeps upd (set_status s j)) as Hk. simpl in Hk.
  destruct Hk as (_ & _ & _ & Hnum & Hst & _).
  unfold invoiced_if_numbered. simpl. rewrite Hnum, Hst. simpl.
  split; [|auto].
  destruct (invoiceNumber j) eqn:E; [right; apply Hs; discriminate | by left].
Qed.

Lemma job_step_invoice (t : Z) (upd : list (string * isodate)) (n : string) (j : Job) :
  status j = "Completed" ->
  job_step j (set_updatedAt t (set_dateUpdates upd
               (set_invoiceNumber (Some n) (set_status "Invoiced" j)))).
Proof.
  intros Hc Hinv.
  pose proof (set_dateUpdates_keeps upd
                (set_invoiceNumber (Some n) (set_status "Invoiced" j))) as Hk.
  simpl in Hk. destruct Hk as (_ & _ & _ & Hnum & Hst & _).
  unfold invoiced_if_numbered. simpl. rewrite Hnum, Hst. simpl.
  split; [right; by left|].
  intros m Hm. destruct Hinv as [Hn|[Hs|Hs]]; congruence.
Qed.

Lemma job_step_payment (t : Z) (d : option isodate) (j : Job) :
  job_step j (set_updatedAt t (set_paymentDate d (set_status "Paid" j))).
Proof. intros _. split; [right; by right | auto]. Qed.

Lemma canTransitionTo_numbered (j : Job) (s : string) :
  invoiced_if_numbered j -> canTransitionTo (status j) s = true ->
  invoiceNumber j <> None -> s = "Invoiced" \/ s = "Paid".
Proof.
  intros [Hn|[Hs|Hs]] Hc Hnum; [contradiction| |]; rewrite Hs in Hc.
  - apply canTransitionTo_successor in Hc; [|unfold JOB_STATUSES; repeat constructor].
    apply immediate_successor_inv in Hc.
    rewrite !elem_of_cons, elem_of_nil in Hc.
    destruct Hc as [H|[H|[H|[H|[H|[H|[]]]]]]]; inversion H. by right.
  - apply canTransitionTo_successor in Hc; [|unfold JOB_STATUSES; repeat constructor].
    apply immediate_successor_inv in Hc.
    rewrite !elem_of_cons, elem_of_nil in Hc.
    destruct Hc as [H|[H|[H|[H|[H|[H|[]]]]]]]; inversion H.
Qed.

(** A job in a status before "Invoiced" has no invoice number. *)
Lemma numbered_status (j : Job) (s : string) :
  invoiced_if_numbered j -> status j = s ->
  s <> "Invoiced" -> s <> "Paid" -> invoiceNumber j = None.
Proof. intros [Hn|[Hs|Hs]] <- H1 H2; [done | contradiction..]. Qed.

Lemma updateJobStatus_effect (env : Env) (id : Z) (s : string) (st : Store) :
  jobs_effect st (updateJobStatus env id s st).2.
Proof.
  unfold updateJobStatus, Db.selectJob.
  destruct (jobs st !! id) as [job|] eqn:Hjob; [|effect_same].
  destruct (canTransitionTo (status job) s) eqn:Hcan; cbn [negb]; [|effect_same].
  effect_alter. intros j Hj. rewrite Hjob in Hj. injection Hj as <-.
  apply job_step_status. intros Hinv Hnum.
  by apply (canTransitionTo_numbered job).
Qed.

Lemma exec_jobs_effect (env : Env) (c : Command) (st : Store) :
  jobs_effect st (exec env c st).
Proof.
  destruct c as [customer items n | id items n | id | id | id | id s | id | id
                | id n | id | id d | id n]; unfold exec.
  - (* createEstimate *)
    unfold createEstimate.
    destruct (Z.of_nat (length items) =? 0); [effect_same|].
    destruct (validateLineItems 0 items); [effect_same|].
    right; right; left. eexists. simpl. repeat split.
  - (* updateEstimate *)
    unfold updateEstimate, Db.selectJob.
    destruct (jobs st !! id) as [job|]; [|effect_same].
    destruct (canEditJob (status job)); simpl; [|effect_same].
    destruct items as [items|].
    + destruct (Z.of_nat (length items) =? 0); [effect_same|].
      effect_alter. intros j _. apply job_step_total.
    + destruct n; [|effect_same].
      effect_alter. intros j _. apply job_step_notes.
  - (* deleteEstimate *)
    unfold deleteEstimate, Db.selectJob.
    destruct (jobs st !! id) as [job|] eqn:Hjob; [|effect_same].
    destruct (canDeleteJob (status job)) eqn:Hdel; simpl; [|effect_same].
    right; right; right. exists id, job. repeat split; assumption.
  - (* markEstimateAsSent *)
    unfold markEstimateAsSent, Db.selectJob.
    destruct (jobs st !! id) as [job|] eqn:Hjob; [|effect_same].
    destruct (String.eqb_spec (status job) "Estimate Created") as [Hs|Hs];
      simpl; [|effect_same].
    effect_alter. intros j Hj. rewrite Hjob in Hj. injection Hj as <-.
    apply (job_step_status _ [] "Estimate Sent").
    intros Hinv Hnum. exfalso. apply Hnum.
    by apply (numbered_status job "Estimate Created").
  - (* approveEstimate *)
    unfold approveEstimate, Db.selectJob.
    destruct (jobs st !! id) as [job|] eqn:Hjob; [|effect_same].
    destruct (negb (String.eqb (status job) "Estimate Created")
              && negb (String.eqb (status job) "Estimate Sent")) eqn:Hcond;
      [effect_same|].
    effect_alter. intros j Hj. rewrite Hjob in Hj. injection Hj as <-.
    apply job_step_status. intros Hinv Hnum. exfalso. apply Hnum.
    apply andb_false_iff in Hcond as [Hc|Hc]; apply negb_false_iff in Hc;
      apply String.eqb_eq in Hc.
    + by apply (numbered_status job "Estimate Created").
    + by apply (numbered_status job "Estimate Sent").
  - apply updateJobStatus_effect.
  - apply updateJobStatus_effect.
  - apply updateJobStatus_effect.
  - (* updateJobNotes *)
    unfold updateJobNotes. effect_alter. intros j _. apply job_step_notes.
  - (* createInvoice *)
    unfold createInvoice, Db.selectJob.
    destruct (jobs st !! id) as [job|] eqn:Hjob; [|effect_same].
    destruct (String.eqb_spec (status job) "Completed") as [Hs|Hs];
      cbn [negb]; [|effect_same].
    effect_alter. intros j Hj. rewrite Hjob in Hj. injection Hj as <-.
    by apply job_step_invoice.
  - (* recordPayment *)
    unfold recordPayment, Db.selectJob.
    destruct (jobs st !! id) as [job|] eqn:Hjob; [|effect_same].
    destruct (String.eqb_spec (status job) "Invoiced") as [Hs|Hs];
      simpl; [|effect_same].
    effect_alter. intros j _. apply job_step_payment.
  - (* updateInvoiceNotes *)
    unfold updateInvoiceNotes, Db.selectJob.
    destruct (jobs st !! id) as [job|] eqn:Hjob; [|effect_same].
    destruct (String.eqb_spec (status job) "Paid") as [Hs|Hs];
      simpl; [effect_same|].
    effect_alter. intros j _. apply job_step_notes.
Qed.

End Reachable.

Section Invariant.

Section Effect.

(** One effect on a store that satisfies the invariant. *)
Variables st st' : Store.
Hypothesis Heff : jobs_effect st st'.
Hypothesis Hinv : store_inv st.

Lemma jobs_effect_inv : store_inv st'.
Proof.
  intros id j Hj.
  destruct Heff as [[Hjobs Hnext]
                   |[(id0 & f & Hjobs & Hnext & Hstep)
                   |[(j0 & Hjobs & Hnext & Hnum)
                   |(id0 & j0 & Hj0 & _ & Hjobs & Hnext)]]];
    rewrite Hjobs in Hj; rewrite Hnext.
  - by apply Hinv.
  - destruct (decide (id0 = id)) as [->|Hne].
    + rewrite lookup_alter_eq in Hj.
      destruct (jobs st !! id) as [j1|] eqn:Hj1; [|discriminate].
      injection Hj as <-. destruct (Hinv id j1 Hj1) as [Hlt Hok].
      split; [exact Hlt|]. by apply (Hstep j1).
    + rewrite lookup_alter_ne in Hj by done. by apply Hinv.
  - destruct (decide (nextJobId st = id)) as [<-|Hne].
    + rewrite lookup_insert_eq in Hj. injection Hj as <-.
      split; [lia | by left].
    + rewrite lookup_insert_ne in Hj by done.
      destruct (Hinv id j Hj). split; [lia | done].
  - destruct (decide (id0 = id)) as [->|Hne].
    + by rewrite lookup_delete_eq in Hj.
    + rewrite lookup_delete_ne in Hj by done. by apply Hinv.
Qed.

Lemma jobs_effect_keeps_number (id : Z) (j : Job) (n : string) :
  jobs st !! id = Some j -> invoiceNumber j = Some n ->
  exists j' : Job, jobs st' !! id = Some j' /\ invoiceNumber j' = Some n.
Proof.
  intros Hj Hn. destruct (Hinv id j Hj) as [Hlt Hok].
  destruct Heff as [[Hjobs Hnext]
                   |[(id0 & f & Hjobs & Hnext & Hstep)
                   |[(j0 & Hjobs & Hnext & Hnum)
                   |(id0 & j0 & Hj0 & Hdel & Hjobs & Hnext)]]];
    rewrite Hjobs.
  - by exists j.
  - destruct (decide (id0 = id)) as [->|Hne].
    + exists (f j). rewrite lookup_alter_eq, Hj. split; [reflexivity|].
      by apply (Hstep j Hj Hok).
    + exists j. by rewrite lookup_alter_ne.
  - exists j. rewrite lookup_insert_ne by lia. done.
  - destruct (decide (id0 = id)) as [->|Hne].
    + exfalso. rewrite Hj in Hj0. injection Hj0 as <-.
      unfold canDeleteJob in Hdel.
      destruct Hok as [Hnone|[Hs|Hs]]; [congruence| |];
        rewrite Hs in Hdel; discriminate Hdel.
    + exists j. by rewrite lookup_delete_ne.
Qed.

End Effect.

Lemma reachable_inv (st : Store) : reachable st -> store_inv st.
Proof.
  induction 1 as [|env c st _ IH].
  - intros id j Hj. unfold empty_store in Hj. simpl in Hj. by rewrite lookup_empty in Hj.
  - exact (jobs_effect_inv _ _ (exec_jobs_effect env c st) IH).
Qed.

(** An invoice number, once set, survives every sequence of commands. *)
Lemma run_keeps_number (cs : list (Env * Command)) (st : Store) (id : Z)
    (j : Job) (n : string) :
  store_inv st -> jobs st !! id = Some j -> invoiceNumber j = Some n ->
  exists j' : Job, jobs (run cs st) !! id = Some j' /\ invoiceNumber j' = Some n.
Proof.
  revert st j. induction cs as [|[env c] cs IH]; intros st j Hinv Hj Hn.
  - by exists j.
  - destruct (jobs_effect_keeps_number _ _ (exec_jobs_effect env c st) Hinv
                id j n Hj Hn) as (j1 & Hj1 & Hn1).
    exact (IH _ j1 (jobs_effect_inv _ _ (exec_jobs_effect env c st) Hinv) Hj1 Hn1).
Qed.

End Invariant.

(** ** Invoicing *)


Lemma reachable_run (cs : list (Env * Command)) (st : Store) :
  reachable st -> reachable (run cs st).
Proof.
  revert st. induction cs as [|[env c] cs IH]; intros st Hst; [exact Hst|].
  apply IH. by constructor.
Qed.


(** ** Decimal numerals *)

Section Numerals.

Lemma pretty_N_go_app (x : N) (s : string) :
  pretty_N_go x s = pretty_N_go x EmptyString +:+ s.
Proof.
  revert s. induction (N.lt_wf_0 x) as [x _ IH]; intros s.
  destruct (decide (x = 0%N)) as [->|Hx]; [by rewrite !pretty_N_go_0|].
  assert (Hlt : (x `div` 10 < x)%N) by (apply N.div_lt; lia).
  rewrite !(pretty_N_go_step x) by lia.
  rewrite (IH _ Hlt (String (pretty_N_char (x `mod` 10)) s)).
  rewrite (IH _ Hlt (String (pretty_N_char (x `mod` 10)) EmptyString)).
  by rewrite append_assoc.
Qed.

Lemma digitValue_char (d : N) :
  (d < 10)%N ->
  Js.digitValue (pretty_N_char d) = Some (Z.of_N d) /\
  Ascii.eqb (pretty_N_char d) "." = false.
Proof.
  intros Hd.
  assert (d = 0 \/ d = 1 \/ d = 2 \/ d = 3 \/ d = 4 \/ d = 5 \/ d = 6 \/
          d = 7 \/ d = 8 \/ d = 9)%N as H by lia.
  destruct H as [->|[->|[->|[->|[->|[->|[->|[->|[->| ->]]]]]]]]]; by split.
Qed.

(** Reading the digits of [x] in front of [s] puts [x] in the accumulator. *)
Lemma parseNumeral_pretty_go (x : N) (s : string) :
  Js.parseNumeral (pretty_N_go x s) 0 = Js.parseNumeral s (Z.of_N x).
Proof.
  revert s. induction (N.lt_wf_0 x) as [x _ IH]; intros s.
  destruct (decide (x = 0%N)) as [->|Hx]; [by rewrite pretty_N_go_0|].
  rewrite pretty_N_go_step by lia.
  rewrite IH by (apply N.div_lt; lia).
  destruct (digitValue_char (x `mod` 10)%N) as [Hd Hp];
    [by apply N.mod_lt|].
  simpl. rewrite Hp, Hd. f_equal.
  rewrite (N.div_mod x 10) at 3 by done. lia.
Qed.

Lemma toString_nonneg (n : Z) :
  0 <= n ->
  Js.toString n =
    if decide (n = 0) then "0" else pretty_N_go (Z.to_N n) EmptyString.
Proof.
  intros Hn. unfold Js.toString, pretty, pretty_Z.
  destruct n as [|p|p]; [done| |lia].
  unfold pretty, pretty_positive, pretty, pretty_N. simpl. reflexivity.
Qed.

Lemma parseNumeral_toString (n : Z) (s : string) :
  0 <= n ->
  Js.parseNumeral (Js.toString n +:+ s) 0 = Js.parseNumeral s n.
Proof.
  intros Hn. rewrite toString_nonneg by done.
  destruct (decide (n = 0)) as [->|Hne]; [reflexivity|].
  rewrite <- pretty_N_go_app, parseNumeral_pretty_go. f_equal. lia.
Qed.

(** A non-negative integer prints as digits: no sign in front. *)
Lemma toString_head (n : Z) (s : string) :
  0 <= n ->
  exists (c : Ascii.ascii) (r : string),
    Js.toString n +:+ s = String c r /\ Ascii.eqb c "-" = false.
Proof.
  intros Hn. rewrite toString_nonneg by done.
  destruct (decide (n = 0)) as [->|Hne]; [by eexists _, _|].
  rewrite <- pretty_N_go_app.
  rewrite pretty_N_go_step by lia.
  destruct (pretty_N_go (Z.to_N n `div` 10)
              (String (pretty_N_char (Z.to_N n `mod` 10)) s)) as [|c r] eqn:E.
  - exfalso.
    assert (Hlen : String.length (pretty_N_go (Z.to_N n `div` 10)
              (String (pretty_N_char (Z.to_N n `mod` 10)) s)) = 0%nat)
      by by rewrite E.
    rewrite pretty_N_go_app, length_append in Hlen. simpl in Hlen. lia.
  - exists c, r. split; [reflexivity|].
    destruct (Ascii.eqb_spec c "-") as [->|]; [|done].
    exfalso. revert E. apply pretty_N_go_ne_dash.
    change ("-" +:+ r) with (String "-" r). intros Heq.
    injection Heq as Hdash _.
    destruct (digitValue_char (Z.to_N n `mod` 10)) as [Hd _];
      [by apply N.mod_lt|].
    rewrite Hdash in Hd. discriminate Hd.
Qed.

Lemma forall_range (P : Z -> bool) (lo len : Z) :
  forallb P (seqZ lo len) = true ->
  forall m : Z, lo <= m < lo + len -> P m = true.
Proof.
  intros Hall m Hm. rewrite forallb_forall in Hall. apply Hall.
  apply list_elem_of_In, elem_of_seqZ. lia.
Qed.

Lemma padStart2_digits (m : Z) :
  0 <= m < 100 ->
  Js.padStart 2 "0" (Js.toString m) =
    String (pretty_N_char (Z.to_N (m / 10)))
      (String (pretty_N_char (Z.to_N (m mod 10))) EmptyString).
Proof.
  intros Hm. apply String.eqb_eq.
  apply (forall_range
    (fun m => String.eqb (Js.padStart 2 "0" (Js.toString m))
       (String (pretty_N_char (Z.to_N (m / 10)))
          (String (pretty_N_char (Z.to_N (m mod 10))) EmptyString))) 0 100);
    [by vm_compute | lia].
Qed.

Lemma parseFraction_padStart2 (a m : Z) :
  0 <= m < 100 ->
  Js.parseFraction (Js.padStart 2 "0" (Js.toString m)) a 1 =
    Some ((100 * a + m) # 100).
Proof.
  intros Hm. rewrite padStart2_digits by done.
  destruct (digitValue_char (Z.to_N (m / 10))) as [Hd1 _].
  { apply N2Z.inj_lt. rewrite Z2N.id by (apply Z.div_pos; lia).
    apply Z.div_lt_upper_bound; lia. }
  destruct (digitValue_char (Z.to_N (m mod 10))) as [Hd0 _].
  { apply N2Z.inj_lt. rewrite Z2N.id by (apply Z.mod_pos_bound; lia).
    apply Z.mod_pos_bound; lia. }
  simpl. rewrite Hd1. simpl. rewrite Hd0.
  rewrite !Z2N.id by (try apply Z.div_pos; try apply Z.mod_pos_bound; lia).
  do 2 f_equal. rewrite (Z.div_mod m 10) at 3 by lia. lia.
Qed.

(** The hundredths that [toFixed(2)] prints. *)
Lemma parseFloat_toFixed2 (x : Q) :
  (0 <= x)%Q ->
  Js.parseFloat (toFixed2 x) = Some (Qfloor (Qabs x * 100 + (1 # 2)) # 100).
Proof.
  intros Hx. unfold toFixed2.
  assert (Hb : Qle_bool 0 x = true) by by apply Qle_bool_iff.
  rewrite Hb. set (n := Qfloor (Qabs x * 100 + (1 # 2))).
  assert (Hn : 0 <= n).
  { unfold n. change 0 with (Qfloor 0). apply Qfloor_resp_le.
    pose proof (Qabs_nonneg x) as Ha.
    apply Qle_trans with (Qabs x * 100)%Q.
    - apply Qmult_le_0_compat; [exact Ha | discriminate].
    - rewrite <- (Qplus_0_r (Qabs x * 100)) at 1.
      apply Qplus_le_r. discriminate. }
  assert (Hq : 0 <= n / 100) by (apply Z.div_pos; lia).
  destruct (toString_head (n / 100)
              ("." +:+ Js.padStart 2 "0" (Js.toString (n mod 100))) Hq)
    as (c & r & Hcr & Hc).
  unfold Js.parseFloat. rewrite Hcr, Hc, <- Hcr.
  rewrite parseNumeral_toString by done.
  change (Js.parseNumeral ("." +:+ ?f) ?a) with (Js.parseFraction f a 1).
  rewrite parseFraction_padStart2 by (apply Z.mod_pos_bound; lia).
  do 2 f_equal. rewrite (Z.div_mod n 100) at 3 by lia. lia.
Qed.

End Numerals.

(** ** Estimates *)

Section Estimates.

Lemma amountOrZero_eq (x : Q) : (amountOrZero x == x)%Q.
Proof.
  unfold amountOrZero. destruct (Qeq_bool x 0) eqn:E; [|reflexivity].
  symmetry. by apply Qeq_bool_eq.
Qed.

Lemma fold_amounts (items : list LineItemInput) (acc : Q) :
  (fold_left (fun sum item => sum + amountOrZero (amount item)) items acc
   == acc + sum_of_amounts items)%Q.
Proof.
  revert acc. induction items as [|item items IH]; intros acc; simpl.
  - by rewrite Qplus_0_r.
  - rewrite IH, amountOrZero_eq. by rewrite Qplus_assoc.
Qed.

Lemma sumAmounts_sum (items : list LineItemInput) :
  (sumAmounts items == sum_of_amounts items)%Q.
Proof. unfold sumAmounts. rewrite fold_amounts. apply Qplus_0_l. Qed.

Lemma sum_of_amounts_nonneg (items : list LineItemInput) :
  Forall valid_item items -> (0 <= sum_of_amounts items)%Q.
Proof.
  induction 1 as [|item items (_ & Ha & _) _ IH]; simpl; [discriminate|].
  change 0%Q with (0 + 0)%Q. by apply Qplus_le_compat.
Qed.

Lemma sum_of_amounts_cents (items : list LineItemInput) :
  Forall (fun item => whole_cents (amount item)) items ->
  whole_cents (sum_of_amounts items).
Proof.
  induction 1 as [|item items [c Hc] _ [cs Hcs]]; simpl.
  - by exists 0.
  - exists (c + cs). rewrite Hc, Hcs. unfold Qeq, Qplus. simpl. lia.
Qed.

Lemma toFixed2_comp (x y : Q) : (x == y)%Q -> toFixed2 x = toFixed2 y.
Proof.
  intros Hxy. unfold toFixed2.
  assert (Hf : Qfloor (Qabs x * 100 + (1 # 2)) = Qfloor (Qabs y * 100 + (1 # 2))).
  { apply Qfloor_comp. by rewrite Hxy. }
  assert (Hb : Qle_bool 0 x = Qle_bool 0 y).
  { destruct (Qle_bool 0 y) eqn:E.
    - apply Qle_bool_iff. rewrite Hxy. by apply Qle_bool_iff.
    - apply not_true_is_false. intros Hx. apply Qle_bool_iff in Hx.
      rewrite Hxy in Hx. apply Qle_bool_iff in Hx. congruence. }
  by rewrite Hf, Hb.
Qed.

(** Rounding to hundredths changes nothing on whole cents. *)
Lemma round2_exact (x : Q) :
  (0 <= x)%Q -> whole_cents x -> (round2 x == x)%Q.
Proof.
  intros Hx [c Hc]. unfold round2.
  assert (Hfl : Qfloor (Qabs x * 100 + (1 # 2)) = c).
  { rewrite (Qfloor_comp _ ((2 * c + 1) # 2)).
    - unfold Qfloor. symmetry. apply (Z.div_unique_pos _ _ c 1); lia.
    - rewrite Qabs_pos by done. rewrite Hc.
      unfold Qeq, Qplus, Qmult. simpl. lia. }
  rewrite Hfl. by symmetry.
Qed.

Lemma validateLineItems_None (i : Z) (items : list LineItemInput) :
  validateLineItems i items = None <-> Forall valid_item items.
Proof.
  revert i. induction items as [|item items IH]; intros i; simpl.
  - split; [constructor | reflexivity].
  - unfold valid_item. rewrite Forall_cons.
    destruct (Js.trim (action item)) as [|a0 a] eqn:Ea; simpl.
    { split; [discriminate | intros [[? _] _]; contradiction]. }
    destruct (Qle_bool 0 (amount item)) eqn:Eq; simpl.
    2: { split; [discriminate|]. intros [(_ & Hq & _) _].
         apply Qle_bool_iff in Hq. congruence. }
    destruct (Js.trim (description item)) as [|d0 d] eqn:Ed; simpl.
    { split; [discriminate | intros [(_ & _ & ?) _]; contradiction]. }
    rewrite IH. apply Qle_bool_iff in Eq. intuition discriminate.
Qed.

Lemma validateLineItems_Some (i : Z) (items : list LineItemInput) :
  Exists (fun item => ~ valid_item item) items ->
  is_Some (validateLineItems i items).
Proof.
  intros Hex. destruct (validateLineItems i items) eqn:E; [by eexists|].
  apply validateLineItems_None in E. apply Exists_exists in Hex.
  destruct Hex as (item & Hin & Hbad). rewrite Forall_forall in E.
  exfalso. by apply Hbad, E.
Qed.

End Estimates.




(** ** Identifier minting *)

(** C3, at the failing input: with 26 estimates already numbered today, the
    sequence letter is the character after [Z], and the number does not
    match the pattern that [parseEstimateNumber] reads. *)
Theorem generateEstimateNumber_27th :
  Db.countLike (fun j => Some (estimateNumber j)) (datePrefix Sample.today)
    (Sample.estimates_created 26) = 26 /\
  generateEstimateNumber Sample.today (1 # 2) (Sample.estimates_created 26)
    = "250714T550[" /\
  matchesEstimateNumber
    (generateEstimateNumber Sample.today (1 # 2) (Sample.estimates_created 26))
    = false.
Proof. by vm_compute. Qed.

(** C4, at the failing input: with 999 invoices already numbered today, the
    sequence has four digits, and the number does not match the pattern
    that [parseInvoiceNumber] reads. *)
Theorem generateInvoiceNumber_1000th :
  Db.countLike invoiceNumber (datePrefix Sample.today)
    (Sample.invoiced_today 999) = 999 /\
  generateInvoiceNumber Sample.today (Sample.invoiced_today 999)
    = "2507141000" /\
  matchesInvoiceNumber
    (generateInvoiceNumber Sample.today (Sample.invoiced_today 999)) = false.
Proof. by vm_compute. Qed.

Section Identifiers.

Lemma substring_all (s : string) : String.substring 0 (String.length s) s = s.
Proof. induction s as [|c s IH]; [reflexivity|]. simpl. by rewrite IH. Qed.

Lemma substring_append (p t : string) :
  String.substring (String.length p) (String.length t) (p +:+ t) = t.
Proof.
  induction p as [|c p IH]; [apply substring_all|].
  rewrite append_cons. simpl. exact IH.
Qed.

Lemma sliceLast_append (p t : string) :
  Js.sliceLast (String.length t) (p +:+ t) = t.
Proof.
  unfold Js.sliceLast. rewrite length_append.
  replace (String.length p + String.length t - String.length t)%nat
    with (String.length p) by lia.
  apply substring_append.
Qed.

Lemma digitValue_digitChar (d : Z) :
  0 <= d < 10 -> Js.digitValue (digitChar d) = Some d.
Proof.
  intros Hd. unfold digitChar.
  destruct (digitValue_char (Z.to_N d)) as [H _]; [lia|].
  rewrite H. f_equal. lia.
Qed.

Lemma matchDigits_twoDigits (n : nat) (m : Z) (rest : string) :
  0 <= m < 100 ->
  matchDigits (S (S n)) (twoDigits m +:+ rest) = matchDigits n rest.
Proof.
  intros Hm. unfold twoDigits. rewrite !append_cons, append_nil_l. simpl.
  rewrite digitValue_digitChar
    by (split; [apply Z.div_pos | apply Z.div_lt_upper_bound]; lia).
  rewrite digitValue_digitChar by (apply Z.mod_pos_bound; lia).
  reflexivity.
Qed.

Lemma matchDigits_threeDigits (n : nat) (k : Z) (rest : string) :
  0 <= k < 1000 ->
  matchDigits (S (S (S n))) (threeDigits k +:+ rest) = matchDigits n rest.
Proof.
  intros Hk. unfold threeDigits. rewrite append_cons.
  change (matchDigits (S (S (S n))) (String ?c ?r))
    with (match Js.digitValue c with
          | Some _ => matchDigits (S (S n)) r
          | None => None
          end).
  rewrite digitValue_digitChar
    by (split; [apply Z.div_pos | apply Z.div_lt_upper_bound]; lia).
  apply matchDigits_twoDigits. apply Z.mod_pos_bound. lia.
Qed.

(** The last two digits of a year. *)
Lemma sliceLast2_toString (y : Z) :
  10 <= y -> Js.sliceLast 2 (Js.toString y) = twoDigits (y mod 100).
Proof.
  intros Hy. rewrite toString_nonneg by lia.
  rewrite decide_False by lia.
  assert (H10 : (0 < Z.to_N y `div` 10)%N).
  { apply N.div_str_pos. lia. }
  rewrite pretty_N_go_step by lia.
  rewrite pretty_N_go_step by done.
  rewrite pretty_N_go_app.
  change 2%nat with (String.length
    (String (pretty_N_char ((Z.to_N y `div` 10) `mod` 10))
       (String (pretty_N_char (Z.to_N y `mod` 10)) EmptyString))).
  rewrite sliceLast_append. unfold twoDigits, digitChar.
  assert (Hsplit : y mod 100 = y mod 10 + 10 * ((y / 10) mod 10)).
  { change 100 with (10 * 10). apply Z.rem_mul_r; lia. }
  pose proof (Z.mod_pos_bound y 10 ltac:(lia)) as Hb0.
  pose proof (Z.mod_pos_bound (y / 10) 10 ltac:(lia)) as Hb1.
  assert (E1 : ((Z.to_N y `div` 10) `mod` 10)%N = Z.to_N (y mod 100 / 10)).
  { apply N2Z.inj. rewrite N2Z.inj_mod, N2Z.inj_div, !Z2N.id;
      [|apply Z.div_pos; [apply Z.mod_pos_bound|]; lia | lia].
    change (Z.of_N 10) with 10. rewrite Hsplit.
    apply (Z.div_unique_pos _ 10 _ (y mod 10)); lia. }
  assert (E0 : (Z.to_N y `mod` 10)%N = Z.to_N (y mod 100 mod 10)).
  { apply N2Z.inj. rewrite N2Z.inj_mod, !Z2N.id;
      [|apply Z.mod_pos_bound; lia | lia].
    change (Z.of_N 10) with 10. rewrite Hsplit.
    apply (Z.mod_unique_pos _ 10 ((y / 10) mod 10)); lia. }
  by rewrite E1, E0.
Qed.

Lemma padStart2_twoDigits (m : Z) :
  0 <= m < 100 -> Js.padStart 2 "0" (Js.toString m) = twoDigits m.
Proof. apply padStart2_digits. Qed.

Lemma padStart3_threeDigits (k : Z) :
  0 <= k < 1000 -> Js.padStart 3 "0" (Js.toString k) = threeDigits k.
Proof.
  intros Hk. apply String.eqb_eq.
  apply (forall_range
    (fun k => String.eqb (Js.padStart 3 "0" (Js.toString k)) (threeDigits k))
    0 1000); [by vm_compute | lia].
Qed.

Lemma toString_threeDigits (n : Z) :
  100 <= n < 1000 -> Js.toString n = threeDigits n.
Proof.
  intros Hn. apply String.eqb_eq.
  apply (forall_range
    (fun n => String.eqb (Js.toString n) (threeDigits n)) 100 900);
    [by vm_compute | lia].
Qed.

(** The date prefix is six digits. *)
Lemma datePrefix_digits (today : JsDate) :
  calendar_date today ->
  datePrefix today =
    twoDigits (getFullYear today mod 100) +:+ twoDigits (getMonth today + 1)
    +:+ twoDigits (getDate today).
Proof.
  intros (Hy & Hm & Hd). unfold datePrefix.
  rewrite sliceLast2_toString by done.
  by rewrite !padStart2_twoDigits by lia.
Qed.

Lemma matchDigits_datePrefix (n : nat) (today : JsDate) (rest : string) :
  calendar_date today ->
  matchDigits (6 + n) (datePrefix today +:+ rest) = matchDigits n rest.
Proof.
  intros Hcal. rewrite datePrefix_digits by done.
  destruct Hcal as (Hy & Hm & Hd).
  rewrite !append_assoc.
  change (6 + n)%nat with (S (S (S (S (S (S n)))))).
  rewrite matchDigits_twoDigits by (apply Z.mod_pos_bound; lia).
  rewrite matchDigits_twoDigits by lia.
  by rewrite matchDigits_twoDigits by lia.
Qed.

Lemma random_digits_range (random : Q) :
  (0 <= random)%Q -> (random < 1)%Q ->
  100 <= Qfloor (100 + random * 900) < 1000.
Proof.
  intros H0 H1. split.
  - change 100 with (Qfloor 100). apply Qfloor_resp_le.
    rewrite <- (Qplus_0_r 100) at 1. apply Qplus_le_r.
    apply Qmult_le_0_compat; [done | discriminate].
  - apply Z.lt_nge. intros Hge.
    assert (Hq : (inject_Z 1000 <= 100 + random * 900)%Q).
    { apply Qle_trans with (inject_Z (Qfloor (100 + random * 900))).
      - by rewrite <- Zle_Qle.
      - apply Qfloor_le. }
    apply (Qlt_not_le _ _ H1).
    unfold Qle, Qplus, Qmult, inject_Z in *. simpl in *. lia.
Qed.

Lemma fromCharCode_upper (count : Z) :
  0 <= count < 26 ->
  exists l : Ascii.ascii,
    Js.fromCharCode (65 + count) = String l EmptyString /\ isUpperCase l = true.
Proof.
  intros Hc. eexists. split; [reflexivity|].
  apply (forall_range
    (fun c => isUpperCase (Ascii.ascii_of_N (Z.to_N (65 + c)))) 0 26);
    [by vm_compute | lia].
Qed.

Lemma digitChar_not_point (d : Z) :
  0 <= d < 10 -> Ascii.eqb (digitChar d) "." = false.
Proof.
  intros Hd. unfold digitChar.
  by destruct (digitValue_char (Z.to_N d)) as [_ H]; [lia|].
Qed.

(** Three digits read back as the number they print. *)
Lemma parseNumeral_threeDigits (k : Z) :
  0 <= k < 1000 -> Js.parseNumeral (threeDigits k) 0 = Some (inject_Z k).
Proof.
  intros Hk.
  assert (H2 : 0 <= k / 100 < 10)
    by (split; [apply Z.div_pos | apply Z.div_lt_upper_bound]; lia).
  pose proof (Z.mod_pos_bound k 100 ltac:(lia)) as Hm.
  assert (H1 : 0 <= k mod 100 / 10 < 10)
    by (split; [apply Z.div_pos | apply Z.div_lt_upper_bound]; lia).
  pose proof (Z.mod_pos_bound (k mod 100) 10 ltac:(lia)) as H0.
  unfold threeDigits, twoDigits. simpl.
  rewrite !digitChar_not_point, !digitValue_digitChar by done.
  unfold inject_Z. do 2 f_equal.
  rewrite (Z.div_mod k 100) at 4 by lia.
  rewrite (Z.div_mod (k mod 100) 10) at 3 by lia. lia.
Qed.

End Identifiers.



(** X2: while fewer than 999 invoice numbers carry today's prefix, the invoice
    number is the six digits of the date followed by the three digits of
    [count + 1], and it matches the pattern of [parseInvoiceNumber]; the
    first invoice of a day has the sequence 001. *)
Theorem generateInvoiceNumber_well_formed (today : JsDate) (st : Store) :
  calendar_date today ->
  Db.countLike invoiceNumber (datePrefix today) st < 999 ->
  let count := Db.countLike invoiceNumber (datePrefix today) st in
  generateInvoiceNumber today st =
    twoDigits (getFullYear today mod 100) +:+ twoDigits (getMonth today + 1)
    +:+ twoDigits (getDate today) +:+ threeDigits (count + 1) /\
  Js.parseNumeral (threeDigits (count + 1)) 0 = Some (inject_Z (count + 1)) /\
  matchesInvoiceNumber (generateInvoiceNumber today st) = true /\
  (count = 0 -> generateInvoiceNumber today st = datePrefix today +:+ "001").
Proof.
  intros Hcal Hcount. cbv zeta.
  assert (Hge : 0 <= Db.countLike invoiceNumber (datePrefix today) st)
    by (unfold Db.countLike; lia).
  assert (Hgen : generateInvoiceNumber today st =
            datePrefix today +:+
            threeDigits (Db.countLike invoiceNumber (datePrefix today) st + 1)).
  { unfold generateInvoiceNumber. by rewrite padStart3_threeDigits by lia. }
  split; [|split; [|split]].
  - rewrite Hgen, (datePrefix_digits today Hcal). by rewrite !append_assoc.
  - apply parseNumeral_threeDigits. lia.
  - rewrite Hgen. unfold matchesInvoiceNumber.
    rewrite <- (append_nil_r (threeDigits _)).
    rewrite (matchDigits_datePrefix 3 today _ Hcal).
    by rewrite (matchDigits_threeDigits 0) by lia.
  - intros Hz. rewrite Hgen, Hz. reflexivity.
Qed.

Lemma generateInvoiceNumber_well_formed_witness :
  generateInvoiceNumber Sample.today (Sample.invoiced_today 2)
    = datePrefix Sample.today +:+ threeDigits 3.
Proof.
  assert (Hcal : calendar_date Sample.today) by (unfold calendar_date; simpl; lia).
  assert (Hc : Db.countLike invoiceNumber (datePrefix Sample.today)
                 (Sample.invoiced_today 2) < 999) by (vm_compute; reflexivity).
  pose proof (proj1 (generateInvoiceNumber_well_formed
                       Sample.today (Sample.invoiced_today 2) Hcal Hc)) as H.
  vm_compute. vm_compute in H. exact H.
Defined.

(** * Further properties *)

(** ** The workflow functions together *)

Section WorkflowFunctions.

Lemma statusIndex_unknown (s : string) :
  s ∉ JOB_STATUSES -> statusIndex s = -1.
Proof. apply indexOf_notin. Qed.

Lemma statusIndex_range (s : string) :
  s ∈ JOB_STATUSES -> 0 <= statusIndex s <= 6.
Proof.
  intros Hs. apply JOB_STATUSES_cases in Hs. seven_cases Hs; by vm_compute.
Qed.

Lemma statusIndex_known (s : string) :
  0 <= statusIndex s -> s ∈ JOB_STATUSES.
Proof.
  intros Hi. destruct (decide (s ∈ JOB_STATUSES)) as [|Hn]; [done|].
  rewrite statusIndex_unknown in Hi by done. lia.
Qed.

Lemma getNextStatus_Some (s s' : string) :
  getNextStatus s = Some s' <-> immediate_successor s s'.
Proof.
  split.
  - intros Hn. destruct (decide (s ∈ JOB_STATUSES)) as [Hs|Hs].
    + apply JOB_STATUSES_cases in Hs. seven_cases Hs;
        vm_compute in Hn; try discriminate Hn; injection Hn as <-.
      * by exists 0%nat.
      * by exists 1%nat.
      * by exists 2%nat.
      * by exists 3%nat.
      * by exists 4%nat.
      * by exists 5%nat.
    + unfold getNextStatus in Hn. rewrite (indexOf_notin STATUS_ORDER _ Hs) in Hn.
      discriminate Hn.
  - intros Hsucc. apply immediate_successor_inv in Hsucc.
    rewrite !elem_of_cons, elem_of_nil in Hsucc.
    destruct Hsucc as [H|[H|[H|[H|[H|[H|[]]]]]]]; inversion H; reflexivity.
Qed.

Lemma getPreviousStatus_Some (s s' : string) :
  getPreviousStatus s' = Some s <-> immediate_successor s s'.
Proof.
  split.
  - intros Hp. destruct (decide (s' ∈ JOB_STATUSES)) as [Hs|Hs].
    + apply JOB_STATUSES_cases in Hs. seven_cases Hs;
        vm_compute in Hp; try discriminate Hp; injection Hp as <-.
      * by exists 0%nat.
      * by exists 1%nat.
      * by exists 2%nat.
      * by exists 3%nat.
      * by exists 4%nat.
      * by exists 5%nat.
    + unfold getPreviousStatus in Hp. rewrite (indexOf_notin STATUS_ORDER _ Hs) in Hp.
      discriminate Hp.
  - intros Hsucc. apply immediate_successor_inv in Hsucc.
    rewrite !elem_of_cons, elem_of_nil in Hsucc.
    destruct Hsucc as [H|[H|[H|[H|[H|[H|[]]]]]]]; inversion H; reflexivity.
Qed.

End WorkflowFunctions.

(** X3: from a status of the order, [canTransitionTo] accepts exactly the
    status that [getNextStatus] returns; from "Paid", where [getNextStatus]
    is [null], it accepts nothing. *)
Theorem canTransitionTo_getNextStatus (s s' : string) :
  s ∈ JOB_STATUSES ->
  (canTransitionTo s s' = true <-> getNextStatus s = Some s') /\
  (getNextStatus s = None <-> s = "Paid") /\
  (getNextStatus s = None -> canTransitionTo s s' = false).
Proof.
  intros Hs.
  assert (Hiff : canTransitionTo s s' = true <-> getNextStatus s = Some s').
  { rewrite getNextStatus_Some. by apply canTransitionTo_successor. }
  split; [exact Hiff|]. split.
  - apply JOB_STATUSES_cases in Hs. seven_cases Hs; by vm_compute.
  - intros Hnone. apply not_true_is_false. intros Hc.
    apply Hiff in Hc. congruence.
Qed.

Lemma canTransitionTo_getNextStatus_witness :
  canTransitionTo "Completed" "Invoiced" = true <->
  getNextStatus "Completed" = Some "Invoiced".
Proof.
  assert (Hs : "Completed" ∈ JOB_STATUSES) by (unfold JOB_STATUSES; repeat constructor).
  exact (proj1 (canTransitionTo_getNextStatus "Completed" "Invoiced" Hs)).
Defined.

(** X4: [getPreviousStatus] undoes [getNextStatus] and conversely, for every
    pair of texts; the first status has no previous one, the last no next
    one, and a text outside the order has neither. *)
Theorem getPreviousStatus_getNextStatus (s s' : string) :
  (getNextStatus s = Some s' <-> getPreviousStatus s' = Some s) /\
  (getPreviousStatus s = None <-> s = "Estimate Created" \/ s ∉ JOB_STATUSES) /\
  (getNextStatus s = None <-> s = "Paid" \/ s ∉ JOB_STATUSES).
Proof.
  split; [by rewrite getNextStatus_Some, getPreviousStatus_Some|].
  destruct (decide (s ∈ JOB_STATUSES)) as [Hs|Hs].
  - assert (Hin := Hs). apply JOB_STATUSES_cases in Hs.
    split; (split; [intros H | intros [H|H]; [|contradiction]]).
    all: seven_cases Hs; try (vm_compute in H; discriminate H);
      try reflexivity; try (by left); try (by vm_compute).
  - unfold getPreviousStatus, getNextStatus.
    rewrite !(indexOf_notin STATUS_ORDER _ Hs). split; (split; [by right | reflexivity]).
Qed.

(** X5: the status classes follow the order: [isEstimate] (and with it
    [canEditJob] and [canDeleteJob]) is the first two statuses, [isActiveJob]
    the next four, [isPaid] the last one and [isInvoiced] the last two; so
    every status of the order is an estimate, an active job or paid, and only
    one of them; a text outside the order is in no class. *)
Theorem status_classes (s : string) :
  (s ∈ JOB_STATUSES ->
     isEstimate s = (statusIndex s <? 2) /\
     isActiveJob s = ((2 <=? statusIndex s) && (statusIndex s <=? 5)) /\
     isPaid s = (statusIndex s =? 6) /\
     isInvoiced s = (5 <=? statusIndex s)) /\
  (s ∉ JOB_STATUSES ->
     isEstimate s = false /\ isActiveJob s = false /\ isPaid s = false /\
     isInvoiced s = false) /\
  canEditJob s = isEstimate s /\ canDeleteJob s = isEstimate s /\
  (isEstimate s && isActiveJob s = false) /\
  (isEstimate s && isPaid s = false) /\
  (isActiveJob s && isPaid s = false) /\
  (s ∈ JOB_STATUSES <-> isEstimate s || isActiveJob s || isPaid s = true).
Proof.
  destruct (decide (s ∈ JOB_STATUSES)) as [Hs|Hs].
  - assert (Hin := Hs). apply JOB_STATUSES_cases in Hs.
    split; [intros _|split; [intros; contradiction|]];
      seven_cases Hs; repeat split; try reflexivity; try done.
  - assert (Hne : forall t, t ∈ JOB_STATUSES -> String.eqb s t = false).
    { intros t Ht. apply String.eqb_neq. by intros ->. }
    assert (E : isEstimate s = false /\ isActiveJob s = false /\
                isPaid s = false /\ isInvoiced s = false).
    { unfold isEstimate, isActiveJob, isPaid, isInvoiced.
      rewrite !Hne by (unfold JOB_STATUSES; repeat constructor). by repeat split. }
    destruct E as (E1 & E2 & E3 & E4).
    split; [intros; contradiction|]. split; [done|].
    unfold canEditJob, canDeleteJob. fold (isEstimate s).
    rewrite E1, E2, E3. repeat split; try done.
Qed.

(** ** Parsing the minted numbers *)

Section Parsers.

Lemma takeDigits_twoDigits (m : Z) (rest : string) :
  0 <= m < 100 ->
  takeDigits 2 (twoDigits m +:+ rest) = Some (twoDigits m, rest).
Proof.
  intros Hm. unfold twoDigits. rewrite !append_cons, append_nil_l. simpl.
  rewrite digitValue_digitChar
    by (split; [apply Z.div_pos | apply Z.div_lt_upper_bound]; lia).
  by rewrite digitValue_digitChar by (apply Z.mod_pos_bound; lia).
Qed.

Lemma takeDigits_threeDigits (k : Z) (rest : string) :
  0 <= k < 1000 ->
  takeDigits 3 (threeDigits k +:+ rest) = Some (threeDigits k, rest).
Proof.
  intros Hk. unfold threeDigits. rewrite append_cons.
  change (takeDigits 3 (String ?c ?r))
    with (match Js.digitValue c with
          | Some _ => match takeDigits 2 r with
                      | Some (g, rest) => Some (String c g, rest)
                      | None => None
                      end
          | None => None
          end).
  rewrite digitValue_digitChar
    by (split; [apply Z.div_pos | apply Z.div_lt_upper_bound]; lia).
  by rewrite takeDigits_twoDigits by (apply Z.mod_pos_bound; lia).
Qed.

Lemma parseInt_twoDigits (m : Z) :
  0 <= m < 100 -> parseInt (twoDigits m) = Some m.
Proof.
  intros Hm.
  assert (H1 : 0 <= m / 10 < 10)
    by (split; [apply Z.div_pos | apply Z.div_lt_upper_bound]; lia).
  pose proof (Z.mod_pos_bound m 10 ltac:(lia)) as H0.
  unfold twoDigits, parseInt. simpl.
  rewrite !digitValue_digitChar by done. f_equal.
  rewrite (Z.div_mod m 10) at 3 by lia. lia.
Qed.

Lemma parseInt_threeDigits (k : Z) :
  0 <= k < 1000 -> parseInt (threeDigits k) = Some k.
Proof.
  intros Hk.
  assert (H2 : 0 <= k / 100 < 10)
    by (split; [apply Z.div_pos | apply Z.div_lt_upper_bound]; lia).
  pose proof (Z.mod_pos_bound k 100 ltac:(lia)) as Hm.
  assert (H1 : 0 <= k mod 100 / 10 < 10)
    by (split; [apply Z.div_pos | apply Z.div_lt_upper_bound]; lia).
  pose proof (Z.mod_pos_bound (k mod 100) 10 ltac:(lia)) as H0.
  unfold threeDigits, twoDigits, parseInt. simpl.
  rewrite !digitValue_digitChar by done. f_equal.
  rewrite (Z.div_mod k 100) at 4 by lia.
  rewrite (Z.div_mod (k mod 100) 10) at 3 by lia. lia.
Qed.

(** The date groups of a number that starts with the date prefix. *)
Lemma takeDate_datePrefix (today : JsDate) (rest : string) :
  calendar_date today ->
  takeDate (datePrefix today +:+ rest) =
    Some (2000 + getFullYear today mod 100, getMonth today + 1,
          getDate today, rest).
Proof.
  intros Hcal. rewrite datePrefix_digits by done.
  destruct Hcal as (Hy & Hm & Hd). rewrite !append_assoc.
  pose proof (Z.mod_pos_bound (getFullYear today) 100 ltac:(lia)) as Hyy.
  unfold takeDate.
  rewrite takeDigits_twoDigits by done.
  rewrite takeDigits_twoDigits by lia.
  rewrite takeDigits_twoDigits by lia.
  by rewrite !parseInt_twoDigits by lia.
Qed.

Lemma digits_only_pretty_go (x : N) (s : string) :
  digits_only (pretty_N_go x s) = digits_only s.
Proof.
  revert s. induction (N.lt_wf_0 x) as [x _ IH]; intros s.
  destruct (decide (x = 0%N)) as [->|Hx]; [by rewrite pretty_N_go_0|].
  rewrite pretty_N_go_step by lia.
  rewrite IH by (apply N.div_lt; lia). simpl.
  by destruct (digitValue_char (x `mod` 10)%N) as [-> _]; [apply N.mod_lt|].
Qed.

Lemma digits_only_toString (n : Z) : 0 <= n -> digits_only (Js.toString n) = true.
Proof.
  intros Hn. rewrite toString_nonneg by done.
  destruct (decide (n = 0)); [reflexivity|]. by rewrite digits_only_pretty_go.
Qed.

Lemma length_pretty_go (x : N) (s : string) :
  (String.length s <= String.length (pretty_N_go x s))%nat.
Proof. rewrite pretty_N_go_app, length_append. lia. Qed.

(** A number of four digits or more prints with at least four characters. *)
Lemma length_toString_1000 (n : Z) :
  1000 <= n -> (4 <= String.length (Js.toString n))%nat.
Proof.
  intros Hn. rewrite toString_nonneg by lia. rewrite decide_False by lia.
  assert (H1 : (0 < Z.to_N n `div` 10)%N) by (apply N.div_str_pos; lia).
  assert (H2 : (0 < (Z.to_N n `div` 10) `div` 10)%N).
  { apply N.div_str_pos. split; [lia|].
    apply N.div_le_lower_bound; lia. }
  assert (H3 : (0 < ((Z.to_N n `div` 10) `div` 10) `div` 10)%N).
  { apply N.div_str_pos. split; [lia|].
    apply N.div_le_lower_bound; [lia|].
    apply N.div_le_lower_bound; lia. }
  rewrite pretty_N_go_step by lia.
  rewrite pretty_N_go_step by done.
  rewrite pretty_N_go_step by done.
  rewrite pretty_N_go_step by done.
  etrans; [|apply length_pretty_go]. simpl. lia.
Qed.

(** Digits beyond a group leave a rest that is not empty. *)
Lemma takeDigits_longer (n : nat) (s : string) :
  digits_only s = true -> (n < String.length s)%nat ->
  exists (g : string) (c : Ascii.ascii) (r : string),
    takeDigits n s = Some (g, String c r).
Proof.
  revert s. induction n as [|n IH]; intros s Hd Hlen.
  - destruct s as [|c r]; [simpl in Hlen; lia|]. by exists EmptyString, c, r.
  - destruct s as [|c r]; [simpl in Hlen; lia|]. simpl in *.
    destruct (Js.digitValue c); [|discriminate].
    destruct (IH r Hd ltac:(lia)) as (g & c' & r' & ->). by eexists _, _, _.
Qed.

Lemma padStart_long (k : nat) (c : Ascii.ascii) (s : string) :
  (k <= String.length s)%nat -> Js.padStart k c s = s.
Proof.
  intros Hk. unfold Js.padStart.
  by replace (k - String.length s)%nat with 0%nat by lia.
Qed.

End Parsers.

(** X6: [parseInvoiceNumber] reads back what [generateInvoiceNumber] mints:
    the date of the clock (the year as 2000 plus its last two digits) and the
    sequence [count + 1], while fewer than 999 invoice numbers carry today's
    prefix; from the 1000th invoice of a day on, the minted number is not
    accepted by the parser. *)
Theorem parseInvoiceNumber_generateInvoiceNumber (today : JsDate) (st : Store) :
  calendar_date today ->
  let count := Db.countLike invoiceNumber (datePrefix today) st in
  (count < 999 ->
     parseInvoiceNumber (generateInvoiceNumber today st) =
       Some {| in_year := 2000 + getFullYear today mod 100;
               in_month := getMonth today + 1;
               in_day := getDate today;
               in_sequence := count + 1 |}) /\
  (2000 <= getFullYear today < 2100 ->
     2000 + getFullYear today mod 100 = getFullYear today) /\
  (999 <= count -> parseInvoiceNumber (generateInvoiceNumber today st) = None).
Proof.
  intros Hcal. cbv zeta.
  assert (Hge : 0 <= Db.countLike invoiceNumber (datePrefix today) st)
    by (unfold Db.countLike; lia).
  split; [|split].
  - intros Hlt. unfold generateInvoiceNumber, parseInvoiceNumber.
    rewrite takeDate_datePrefix by done.
    rewrite padStart3_threeDigits by lia.
    rewrite <- (append_nil_r (threeDigits _)).
    rewrite takeDigits_threeDigits by lia.
    by rewrite parseInt_threeDigits by lia.
  - intros Hy. rewrite (Z.mod_eq _ 100) by lia.
    assert (getFullYear today / 100 = 20); [|lia].
    symmetry. apply (Z.div_unique_pos _ 100 20 (getFullYear today - 2000)); lia.
  - intros Hbig. unfold generateInvoiceNumber, parseInvoiceNumber.
    rewrite takeDate_datePrefix by done.
    pose proof (length_toString_1000
      (Db.countLike invoiceNumber (datePrefix today) st + 1) ltac:(lia)) as Hlen.
    rewrite padStart_long by lia.
    assert (Hdig : digits_only (Js.toString
              (Db.countLike invoiceNumber (datePrefix today) st + 1)) = true)
      by (apply digits_only_toString; lia).
    destruct (takeDigits_longer 3 _ Hdig) as (g & c & r & ->); [lia|].
    reflexivity.
Qed.

Lemma parseInvoiceNumber_generateInvoiceNumber_witness :
  in_sequence <$>
    parseInvoiceNumber (generateInvoiceNumber Sample.today (Sample.invoiced_today 2))
  = Some 3.
Proof.
  assert (Hcal : calendar_date Sample.today) by (unfold calendar_date; simpl; lia).
  assert (Hc : Db.countLike invoiceNumber (datePrefix Sample.today)
                 (Sample.invoiced_today 2) < 999) by (vm_compute; reflexivity).
  rewrite (proj1 (parseInvoiceNumber_generateInvoiceNumber
                    Sample.today (Sample.invoiced_today 2) Hcal) Hc).
  vm_compute. reflexivity.
Defined.



(** ** The actions one by one *)

Section Actions.

Lemma dateColumn_set_dateColumn (field f : string) (v : isodate) (j : Job) :
  STATUS_DATE_FIELDS "Estimate Created" = Some (Some f) \/
  STATUS_DATE_FIELDS "Approved" = Some (Some f) \/
  STATUS_DATE_FIELDS "In Progress" = Some (Some f) \/
  STATUS_DATE_FIELDS "Completed" = Some (Some f) \/
  STATUS_DATE_FIELDS "Invoiced" = Some (Some f) \/
  STATUS_DATE_FIELDS "Paid" = Some (Some f) ->
  dateColumn field (set_dateColumn f v j) =
    if String.eqb field f then Some v else dateColumn field j.
Proof.
  intros Hf.
  destruct Hf as [H|[H|[H|[H|[H|H]]]]]; vm_compute in H; injection H as <-;
    unfold dateColumn;
    destruct (String.eqb_spec field "estimateDate");
    destruct (String.eqb_spec field "approvalDate");
    destruct (String.eqb_spec field "startDate");
    destruct (String.eqb_spec field "completionDate");
    destruct (String.eqb_spec field "invoiceDate");
    destruct (String.eqb_spec field "paymentDate");
    try reflexivity; congruence.
Qed.

Lemma dateColumn_set_updatedAt (field : string) (t : Z) (j : Job) :
  dateColumn field (set_updatedAt t j) = dateColumn field j.
Proof. reflexivity. Qed.

Lemma dateColumn_set_status (field s : string) (j : Job) :
  dateColumn field (set_status s j) = dateColumn field j.
Proof. reflexivity. Qed.

(** An accepted request names a status of the order. *)
Lemma canTransitionTo_target (s s' : string) :
  canTransitionTo s s' = true -> s' ∈ JOB_STATUSES.
Proof.
  intros Hc. unfold canTransitionTo in Hc. apply Z.eqb_eq in Hc.
  apply statusIndex_known. unfold statusIndex. rewrite Hc.
  destruct (decide (s ∈ JOB_STATUSES)) as [Hs|Hs].
  - pose proof (statusIndex_range s Hs). unfold statusIndex in *. lia.
  - rewrite (indexOf_notin STATUS_ORDER _ Hs). lia.
Qed.

Lemma jobs_alter_Some (id : Z) (f : Job -> Job) (m : gmap Z Job) (j : Job) :
  m !! id = Some j -> alter f id m = <[id := f j]> m.
Proof.
  intros Hj. apply map_eq. intros i.
  destruct (decide (id = i)) as [->|Hne].
  - by rewrite lookup_alter_eq, lookup_insert_eq, Hj.
  - by rewrite lookup_alter_ne, lookup_insert_ne.
Qed.

Lemma jobs_alter_None (id : Z) (f : Job -> Job) (m : gmap Z Job) :
  m !! id = None -> alter f id m = m.
Proof.
  intros Hj. apply map_eq. intros i.
  destruct (decide (id = i)) as [->|Hne].
  - by rewrite lookup_alter_eq, Hj.
  - by rewrite lookup_alter_ne.
Qed.

End Actions.



Section LineItems.

Lemma insertLineItems_rows (rows : list (Z -> LineItem)) (st : Store) :
  lineItems (Db.insertLineItems rows st) =
    lineItems st ++ assignIds rows (nextLineItemId st).
Proof. reflexivity. Qed.

Lemma filter_other_job (id id' : Z) (l : list LineItem) :
  id' <> id ->
  List.filter (fun r => jobId r =? id')
    (List.filter (fun r => negb (jobId r =? id)) l) =
  List.filter (fun r => jobId r =? id') l.
Proof.
  intros Hne. induction l as [|r l IH]; [reflexivity|]. simpl.
  destruct (Z.eqb_spec (jobId r) id) as [E|E]; simpl.
  - destruct (Z.eqb_spec (jobId r) id'); [lia | exact IH].
  - destruct (jobId r =? id'); [by rewrite IH | exact IH].
Qed.

Lemma filter_same_job (id : Z) (l : list LineItem) :
  List.filter (fun r => jobId r =? id)
    (List.filter (fun r => negb (jobId r =? id)) l) = [].
Proof.
  induction l as [|r l IH]; [reflexivity|]. simpl.
  destruct (Z.eqb_spec (jobId r) id) as [E|E]; simpl; [exact IH|].
  destruct (Z.eqb_spec (jobId r) id); [contradiction | exact IH].
Qed.

Lemma filter_rows_same (id k next : Z) (items : list LineItemInput) :
  List.filter (fun r => jobId r =? id) (assignIds (lineItemRows id k items) next) =
  assignIds (lineItemRows id k items) next.
Proof.
  revert k next. induction items as [|item items IH]; intros k next;
    [reflexivity|].
  simpl. rewrite Z.eqb_refl. by rewrite IH.
Qed.

Lemma filter_rows_other (id id' k next : Z) (items : list LineItemInput) :
  id' <> id ->
  List.filter (fun r => jobId r =? id') (assignIds (lineItemRows id k items) next) = [].
Proof.
  intros Hne. revert k next. induction items as [|item items IH]; intros k next;
    [reflexivity|].
  simpl. destruct (Z.eqb_spec id id'); [congruence | apply IH].
Qed.

(** The rows of one request are stored in the order of their item numbers,
    so that reading them back by item number changes nothing. *)
Lemma sort_rows (id k next : Z) (items : list LineItemInput) :
  foldr Db.insertByItemNumber [] (assignIds (lineItemRows id k items) next) =
  assignIds (lineItemRows id k items) next.
Proof.
  revert k next. induction items as [|item items IH]; intros k next;
    [reflexivity|].
  simpl. rewrite IH. destruct items as [|item' items]; [reflexivity|].
  simpl. destruct (Z.ltb_spec (k + 1) (k + 1 + 1)); [reflexivity | lia].
Qed.

Lemma itemNumber_rows (id k next : Z) (items : list LineItemInput) :
  itemNumber <$> assignIds (lineItemRows id k items) next =
  seqZ (k + 1) (Z.of_nat (length items)).
Proof.
  revert k next. induction items as [|item items IH]; intros k next;
    [reflexivity|].
  cbn [length lineItemRows assignIds fmap list_fmap itemNumber].
  rewrite Nat2Z.inj_succ, seqZ_cons by lia. f_equal.
  change (list_fmap _ _ itemNumber ?l) with (itemNumber <$> l).
  rewrite IH. f_equal; lia.
Qed.

Lemma li_id_rows (id k next : Z) (items : list LineItemInput) :
  li_id <$> assignIds (lineItemRows id k items) next =
  seqZ next (Z.of_nat (length items)).
Proof.
  revert k next. induction items as [|item items IH]; intros k next;
    [reflexivity|].
  cbn [length lineItemRows assignIds fmap list_fmap li_id].
  rewrite Nat2Z.inj_succ, seqZ_cons by lia. f_equal.
  change (list_fmap _ _ li_id ?l) with (li_id <$> l).
  rewrite IH. f_equal; lia.
Qed.

Lemma fields_rows (id k next : Z) (items : list LineItemInput) :
  (fun r => (li_action r, li_amount r, li_description r)) <$>
    assignIds (lineItemRows id k items) next =
  (fun item => (Js.trim (action item), toFixed2 (amount item),
                Js.trim (description item))) <$> items.
Proof.
  revert k next. induction items as [|item items IH]; intros k next;
    [reflexivity|].
  cbn [lineItemRows assignIds fmap list_fmap li_action li_amount li_description].
  f_equal. apply IH.
Qed.

End LineItems.

(** X9: [deleteEstimate] succeeds exactly on an existing job whose status is
    "Estimate Created" or "Estimate Sent"; it then removes the job and its
    line items and touches no other job and no other job's line items; a
    refusal carries a message and leaves the store as it was. *)
Theorem deleteEstimate_spec (id : Z) (st : Store) :
  let r := deleteEstimate id st in
  (success r.1 = true <->
     exists job : Job, jobs st !! id = Some job /\
       (status job = "Estimate Created" \/ status job = "Estimate Sent")) /\
  (success r.1 = true ->
     jobs r.2 !! id = None /\ Db.selectLineItems id r.2 = [] /\
     forall id' : Z, id' <> id ->
       jobs r.2 !! id' = jobs st !! id' /\
       Db.selectLineItems id' r.2 = Db.selectLineItems id' st) /\
  (success r.1 = false -> r.2 = st /\ is_Some (error r.1)).
Proof.
  cbv zeta. unfold deleteEstimate, Db.selectJob.
  destruct (jobs st !! id) as [job|] eqn:Hjob.
  2: { simpl. split; [|split]; [| discriminate | by eauto].
       split; [discriminate | intros (? & ? & _); discriminate]. }
  assert (Hdel : canDeleteJob (status job) = true <->
                 status job = "Estimate Created" \/ status job = "Estimate Sent").
  { unfold canDeleteJob. rewrite orb_true_iff.
    split; (intros [H|H]; [left|right]); by apply String.eqb_eq. }
  destruct (canDeleteJob (status job)) eqn:Hc; cbn [negb fst snd success error
    succeed failure].
  - split; [|split]; [| |discriminate].
    + split; [|reflexivity]. intros _. exists job. split; [reflexivity|].
      by apply Hdel.
    + intros _. split; [apply lookup_delete_eq|]. split.
      * unfold Db.selectLineItems. cbn [lineItems Db.deleteJob Db.deleteLineItems].
        by rewrite filter_same_job.
      * intros id' Hne. split; [by apply lookup_delete_ne|].
        unfold Db.selectLineItems. cbn [lineItems Db.deleteJob Db.deleteLineItems].
        by rewrite filter_other_job.
  - split; [|split]; [|discriminate|by eauto].
    split; [discriminate|]. intros (job' & Hj & Hs). injection Hj as <-.
    apply Hdel in Hs. discriminate.
Qed.

Section Agreement.

(** What [canTransitionTo] answers for the four statuses that have an action
    of their own, for any text as the current status. *)
Lemma canTransitionTo_eqb (s : string) :
  canTransitionTo s "Estimate Sent" = String.eqb s "Estimate Created" /\
  canTransitionTo s "Approved" = String.eqb s "Estimate Sent" /\
  canTransitionTo s "Invoiced" = String.eqb s "Completed" /\
  canTransitionTo s "Paid" = String.eqb s "Invoiced".
Proof.
  destruct (decide (s ∈ JOB_STATUSES)) as [Hs|Hs].
  - apply JOB_STATUSES_cases in Hs. seven_cases Hs; vm_compute; auto.
  - unfold canTransitionTo. rewrite (indexOf_notin STATUS_ORDER _ Hs).
    assert (Hne : forall t : string, t ∈ JOB_STATUSES -> String.eqb s t = false).
    { intros t Ht. destruct (String.eqb_spec s t) as [->|]; [contradiction|done]. }
    rewrite !Hne by (unfold JOB_STATUSES; repeat constructor).
    vm_compute. auto.
Qed.

End Agreement.

(** X10: the actions that move a job to one status agree with the general
    [updateJobStatus]. [markEstimateAsSent] and [recordPayment] without a
    date succeed exactly when [updateJobStatus] to "Estimate Sent" and to
    "Paid" does, and leave the same store. [approveEstimate] does so for
    "Approved" unless the job is at "Estimate Created", where it succeeds and
    [updateJobStatus] refuses. [createInvoice] succeeds exactly when
    [updateJobStatus] to "Invoiced" does, and its store is the one of
    [updateJobStatus] with the fresh invoice number written to the job:
    [updateJobStatus] alone leaves the invoice number as it was. *)
Theorem dedicated_actions_agree (env : Env) (id : Z) (st : Store) :
  (success (markEstimateAsSent env id st).1 =
     success (updateJobStatus env id "Estimate Sent" st).1 /\
   (markEstimateAsSent env id st).2 =
     (updateJobStatus env id "Estimate Sent" st).2) /\
  (success (recordPayment env id None st).1 =
     success (updateJobStatus env id "Paid" st).1 /\
   (recordPayment env id None st).2 = (updateJobStatus env id "Paid" st).2) /\
  (forall job : Job, jobs st !! id = Some job ->
     if String.eqb (status job) "Estimate Created" then
       success (approveEstimate env id st).1 = true /\
       success (updateJobStatus env id "Approved" st).1 = false
     else
       success (approveEstimate env id st).1 =
         success (updateJobStatus env id "Approved" st).1 /\
       (approveEstimate env id st).2 =
         (updateJobStatus env id "Approved" st).2) /\
  (success (createInvoice env id st).1 =
     success (updateJobStatus env id "Invoiced" st).1 /\
   (success (createInvoice env id st).1 = true ->
      (createInvoice env id st).2 =
        Db.updateJob id
          (set_invoiceNumber (Some (generateInvoiceNumber (now env) st)))
          (updateJobStatus env id "Invoiced" st).2) /\
   (success (createInvoice env id st).1 = false ->
      (createInvoice env id st).2 = st /\
      (updateJobStatus env id "Invoiced" st).2 = st)).
Proof.
  unfold markEstimateAsSent, recordPayment, approveEstimate, createInvoice,
    updateJobStatus, Db.selectJob.
  destruct (jobs st !! id) as [job|] eqn:Hjob.
  2: { repeat split; try discriminate; reflexivity. }
  destruct (canTransitionTo_eqb (status job)) as (-> & -> & -> & ->).
  split; [|split; [|split]].
  - destruct (String.eqb (status job) "Estimate Created"); split; reflexivity.
  - destruct (String.eqb (status job) "Invoiced"); split; reflexivity.
  - intros job' Hj. injection Hj as <-.
    destruct (String.eqb_spec (status job) "Estimate Created") as [E|E].
    + rewrite E. split; reflexivity.
    + cbn [negb andb].
      destruct (String.eqb (status job) "Estimate Sent"); split; reflexivity.
  - destruct (String.eqb (status job) "Completed");
      cbn [negb fst snd success succeed_with failure].
    + split; [reflexivity|]. split; [|discriminate]. intros _.
      unfold Db.updateJob. cbn [jobs lineItems nextJobId nextLineItemId].
      f_equal. rewrite alter_alter_eq. reflexivity.
    + split; [reflexivity|]. split; [discriminate|]. by intros _.
Qed.






(** ** The life of a job *)

Section Lifecycle.

Lemma exec_lifecycle_effect (env : Env) (c : Command) (st : Store) :
  lifecycle_effect (generateInvoiceNumber (now env) st) st (exec env c st).
Proof.
  assert (Hupd : forall (id : Z) (f : Job -> Job) (j : Job),
            jobs st !! id = Some j ->
            job_update (generateInvoiceNumber (now env) st) j (f j) ->
            lifecycle_effect (generateInvoiceNumber (now env) st) st
              (Db.updateJob id f st)).
  { intros id f j Hj Hup. right; left. exists id, j, (f j).
    split; [exact Hj|]. split; [exact Hup|].
    split; [by apply jobs_alter_Some | reflexivity]. }
  destruct c as [customer items n | id items n | id | id | id | id s | id | id
                | id n | id | id d | id n]; unfold exec.
  - (* createEstimate *)
    unfold createEstimate.
    destruct (Z.of_nat (length items) =? 0); [lifecycle_same|].
    destruct (validateLineItems 0 items); [lifecycle_same|].
    right; right; left. eexists. cbn [snd].
    split; [|split; reflexivity]. by repeat split.
  - (* updateEstimate *)
    unfold updateEstimate, Db.selectJob.
    destruct (jobs st !! id) as [job|] eqn:Hjob; [|lifecycle_same].
    destruct (canEditJob (status job)); cbn [negb]; [|lifecycle_same].
    destruct items as [items|].
    + destruct (Z.of_nat (length items) =? 0); [lifecycle_same|].
      cbn [snd].
      match goal with
      | |- lifecycle_effect _ _ (Db.updateJob _ ?f ?st2) =>
          change (lifecycle_effect (generateInvoiceNumber (now env) st) st
                    (Db.updateJob id f st2))
            with (lifecycle_effect (generateInvoiceNumber (now env) st) st
                    {| jobs := jobs (Db.updateJob id f st);
                       lineItems := lineItems (Db.updateJob id f st2);
                       nextJobId := nextJobId (Db.updateJob id f st);
                       nextLineItemId := nextLineItemId (Db.updateJob id f st2) |});
          pose proof (Hupd id f job Hjob (update_details _ job _ _ _)) as H
      end.
      exact H.
    + destruct n; [|lifecycle_same]. cbn [snd].
      apply (Hupd id _ job Hjob). apply update_notes.
  - (* deleteEstimate *)
    unfold deleteEstimate, Db.selectJob.
    destruct (jobs st !! id) as [job|] eqn:Hjob; [|lifecycle_same].
    destruct (canDeleteJob (status job)) eqn:Hdel; cbn [negb]; [|lifecycle_same].
    right; right; right. exists id, job. repeat split; done.
  - (* markEstimateAsSent *)
    unfold markEstimateAsSent, Db.selectJob.
    destruct (jobs st !! id) as [job|] eqn:Hjob; [|lifecycle_same].
    destruct (String.eqb_spec (status job) "Estimate Created") as [E|E];
      cbn [negb]; [|lifecycle_same].
    cbn [snd]. apply (Hupd id _ job Hjob).
    apply (update_status _ job _ (now env) "Estimate Sent").
    left. by rewrite E.
  - (* approveEstimate *)
    unfold approveEstimate, Db.selectJob.
    destruct (jobs st !! id) as [job|] eqn:Hjob; [|lifecycle_same].
    destruct (String.eqb_spec (status job) "Estimate Created") as [E|E];
      cbn [negb andb].
    + cbn [snd]. apply (Hupd id _ job Hjob).
      apply (update_status _ job _ (now env) "Approved"). by right.
    + destruct (String.eqb_spec (status job) "Estimate Sent") as [E'|E'];
        cbn [negb]; [|lifecycle_same].
      cbn [snd]. apply (Hupd id _ job Hjob).
      apply (update_status _ job _ (now env) "Approved"). left. by rewrite E'.
  - (* updateJobStatus *)
    unfold updateJobStatus, Db.selectJob.
    destruct (jobs st !! id) as [job|] eqn:Hjob; [|lifecycle_same].
    destruct (canTransitionTo (status job) s) eqn:Hcan; cbn [negb];
      [|lifecycle_same].
    cbn [snd]. apply (Hupd id _ job Hjob).
    apply (update_status _ job _ (now env) s). by left.
  - (* startJob *)
    unfold startJob, updateJobStatus, Db.selectJob.
    destruct (jobs st !! id) as [job|] eqn:Hjob; [|lifecycle_same].
    destruct (canTransitionTo (status job) "In Progress") eqn:Hcan; cbn [negb];
      [|lifecycle_same].
    cbn [snd]. apply (Hupd id _ job Hjob).
    apply (update_status _ job _ (now env) "In Progress"). by left.
  - (* completeJob *)
    unfold completeJob, updateJobStatus, Db.selectJob.
    destruct (jobs st !! id) as [job|] eqn:Hjob; [|lifecycle_same].
    destruct (canTransitionTo (status job) "Completed") eqn:Hcan; cbn [negb];
      [|lifecycle_same].
    cbn [snd]. apply (Hupd id _ job Hjob).
    apply (update_status _ job _ (now env) "Completed"). by left.
  - (* updateJobNotes *)
    unfold updateJobNotes. cbn [snd].
    destruct (jobs st !! id) as [job|] eqn:Hjob.
    + apply (Hupd id _ job Hjob). apply update_notes.
    + left. split; [|reflexivity]. by apply jobs_alter_None.
  - (* createInvoice *)
    unfold createInvoice, Db.selectJob.
    destruct (jobs st !! id) as [job|] eqn:Hjob; [|lifecycle_same].
    destruct (String.eqb_spec (status job) "Completed") as [E|E];
      cbn [negb]; [|lifecycle_same].
    cbn [snd]. apply (Hupd id _ job Hjob).
    by apply (update_invoice _ job _ (now env)).
  - (* recordPayment *)
    unfold recordPayment, Db.selectJob.
    destruct (jobs st !! id) as [job|] eqn:Hjob; [|lifecycle_same].
    destruct (String.eqb_spec (status job) "Invoiced") as [E|E];
      cbn [negb]; [|lifecycle_same].
    cbn [snd]. apply (Hupd id _ job Hjob).
    by apply update_payment.
  - (* updateInvoiceNotes *)
    unfold updateInvoiceNotes, Db.selectJob.
    destruct (jobs st !! id) as [job|] eqn:Hjob; [|lifecycle_same].
    destruct (String.eqb (status job) "Paid"); [lifecycle_same|].
    cbn [snd]. apply (Hupd id _ job Hjob). apply update_notes.
Qed.

End Lifecycle.

Section Progress.

Lemma well_staged_known (j : Job) :
  well_staged j = true -> status j ∈ JOB_STATUSES.
Proof.
  intros Hw. destruct (decide (status j ∈ JOB_STATUSES)) as [|Hn]; [done|].
  unfold well_staged in Hw. rewrite (statusIndex_unknown _ Hn) in Hw.
  discriminate Hw.
Qed.

Lemma job_progress_refl (j : Job) : job_progress j j.
Proof. unfold job_progress. repeat split; auto; lia. Qed.

Lemma job_progress_trans (j1 j2 j3 : Job) :
  job_progress j1 j2 -> job_progress j2 j3 -> job_progress j1 j3.
Proof.
  intros (H1 & H2 & H3 & H4 & H5 & H6 & H7) (K1 & K2 & K3 & K4 & K5 & K6 & K7).
  unfold job_progress. repeat split; try congruence; [lia | |]; auto.
Qed.

(** A status change from a known status. *)
Lemma advance_cases (s s' : string) :
  s ∈ JOB_STATUSES -> advance s s' ->
  (s, s') ∈ [ ("Estimate Created", "Estimate Sent"); ("Estimate Sent", "Approved");
              ("Approved", "In Progress"); ("In Progress", "Completed");
              ("Completed", "Invoiced"); ("Invoiced", "Paid");
              ("Estimate Created", "Approved") ].
Proof.
  intros Hs [Hc|[-> ->]].
  - apply (canTransitionTo_successor s s' Hs), immediate_successor_inv in Hc.
    revert Hc. rewrite !elem_of_cons, !elem_of_nil. tauto.
  - rewrite !elem_of_cons. tauto.
Qed.

(** An update that an action issues keeps [well_staged] and only adds to
    the row. *)
Lemma job_update_progress (mint : string) (j j' : Job) :
  well_staged j = true -> job_update mint j j' ->
  well_staged j' = true /\ job_progress j j'.
Proof.
  intros Hw Hup. pose proof (well_staged_known j Hw) as Hk.
  destruct Hup as [t n a | t n | t d s' Hadv | t d Hs | t d Hs].
  - split; [exact Hw|]. unfold job_progress. cbn. repeat split; auto; lia.
  - split; [exact Hw|]. unfold job_progress. cbn. repeat split; auto; lia.
  - apply (advance_cases _ _ Hk) in Hadv.
    rewrite !elem_of_cons, elem_of_nil in Hadv.
    destruct Hadv as [H|[H|[H|[H|[H|[H|[H|[]]]]]]]]; injection H as Hs ->;
      staged_cases j Hw; progress_goal.
  - staged_cases j Hw; progress_goal.
  - staged_cases j Hw; progress_goal.
Qed.

End Progress.

Section Stores.

Variable mint : string.
Variables st st' : Store.
Hypothesis Heff : lifecycle_effect mint st st'.
Hypothesis Hinv : lifecycle_inv st.

Lemma lifecycle_effect_inv : lifecycle_inv st'.
Proof.
  intros id j Hj.
  destruct Heff as [[Hjobs Hnext]
                   |[(id0 & j0 & j0' & Hj0 & Hup & Hjobs & Hnext)
                   |[(j0 & Hfresh & Hjobs & Hnext)
                   |(id0 & j0 & Hj0 & _ & Hjobs & Hnext)]]];
    rewrite Hjobs in Hj; rewrite Hnext.
  - by apply Hinv.
  - destruct (decide (id0 = id)) as [->|Hne].
    + rewrite lookup_insert_eq in Hj. injection Hj as <-.
      destruct (Hinv id j0 Hj0) as (Hlt & Hid & Hw).
      destruct (job_update_progress mint j0 j0' Hw Hup) as (Hw' & _ & Hid' & _).
      repeat split; [done | congruence | done].
    + rewrite lookup_insert_ne in Hj by done. by apply Hinv.
  - destruct (decide (nextJobId st = id)) as [<-|Hne].
    + rewrite lookup_insert_eq in Hj. injection Hj as <-.
      destruct Hfresh as (Hid & Hs & Hn & Ha & Hb & Hc & Hd & He).
      split; [lia|]. split; [done|].
      unfold well_staged. by rewrite Hs, Hn, Ha, Hb, Hc, Hd, He.
    + rewrite lookup_insert_ne in Hj by done.
      destruct (Hinv id j Hj) as (? & ? & ?). repeat split; [lia | done | done].
  - destruct (decide (id0 = id)) as [->|Hne].
    + by rewrite lookup_delete_eq in Hj.
    + rewrite lookup_delete_ne in Hj by done. by apply Hinv.
Qed.

(** A row, one command later: a later version of itself or, if it could be
    deleted, gone. *)
Lemma lifecycle_effect_row (id : Z) (j : Job) :
  jobs st !! id = Some j ->
  match jobs st' !! id with
  | Some j' => job_progress j j'
  | None => canDeleteJob (status j) = true
  end.
Proof.
  intros Hj.
  destruct Heff as [[Hjobs Hnext]
                   |[(id0 & j0 & j0' & Hj0 & Hup & Hjobs & Hnext)
                   |[(j0 & Hfresh & Hjobs & Hnext)
                   |(id0 & j0 & Hj0 & Hdel & Hjobs & Hnext)]]];
    rewrite Hjobs.
  - rewrite Hj. apply job_progress_refl.
  - destruct (decide (id0 = id)) as [->|Hne].
    + rewrite lookup_insert_eq. rewrite Hj in Hj0. injection Hj0 as <-.
      destruct (Hinv id j Hj) as (_ & _ & Hw).
      by destruct (job_update_progress mint j j0' Hw Hup).
    + rewrite lookup_insert_ne, Hj by done. apply job_progress_refl.
  - destruct (Hinv id j Hj) as (Hlt & _).
    rewrite lookup_insert_ne, Hj by lia. apply job_progress_refl.
  - destruct (decide (id0 = id)) as [->|Hne].
    + rewrite lookup_delete_eq. rewrite Hj in Hj0. by injection Hj0 as <-.
    + rewrite lookup_delete_ne, Hj by done. apply job_progress_refl.
Qed.

(** An id that was given out and is free stays free. *)
Lemma lifecycle_effect_free (id : Z) :
  jobs st !! id = None -> id < nextJobId st ->
  jobs st' !! id = None /\ id < nextJobId st'.
Proof.
  intros Hj Hlt.
  destruct Heff as [[Hjobs Hnext]
                   |[(id0 & j0 & j0' & Hj0 & Hup & Hjobs & Hnext)
                   |[(j0 & Hfresh & Hjobs & Hnext)
                   |(id0 & j0 & Hj0 & Hdel & Hjobs & Hnext)]]];
    rewrite Hjobs, Hnext.
  - done.
  - split; [|done]. rewrite lookup_insert_ne; [done|]. congruence.
  - split; [|lia]. rewrite lookup_insert_ne; [done|lia].
  - split; [|done]. destruct (decide (id0 = id)) as [->|Hne].
    + apply lookup_delete_eq.
    + by rewrite lookup_delete_ne.
Qed.

End Stores.

Section Runs.

Lemma reachable_lifecycle (st : Store) : reachable st -> lifecycle_inv st.
Proof.
  induction 1 as [|env c st _ IH].
  - intros id j Hj. unfold empty_store in Hj. simpl in Hj.
    by rewrite lookup_empty in Hj.
  - exact (lifecycle_effect_inv _ _ _ (exec_lifecycle_effect env c st) IH).
Qed.

Lemma run_free (cs : list (Env * Command)) (st : Store) (id : Z) :
  jobs st !! id = None -> id < nextJobId st ->
  jobs (run cs st) !! id = None.
Proof.
  revert st. induction cs as [|[env c] cs IH]; intros st Hj Hlt; [exact Hj|].
  destruct (lifecycle_effect_free _ _ _ (exec_lifecycle_effect env c st) id Hj Hlt).
  by apply IH.
Qed.

Lemma canDeleteJob_index (s : string) :
  s ∈ JOB_STATUSES -> canDeleteJob s = true <-> statusIndex s <= 1.
Proof.
  intros Hs. apply JOB_STATUSES_cases in Hs.
  seven_cases Hs; vm_compute; split; congruence.
Qed.

Lemma run_row (cs : list (Env * Command)) (st : Store) (id : Z) (j : Job) :
  lifecycle_inv st -> jobs st !! id = Some j ->
  match jobs (run cs st) !! id with
  | Some j' => job_progress j j' /\ well_staged j' = true
  | None => canDeleteJob (status j) = true
  end.
Proof.
  revert st j. induction cs as [|[env c] cs IH]; intros st j Hinv Hj.
  - simpl. rewrite Hj. split; [apply job_progress_refl | by apply (Hinv id j)].
  - pose proof (exec_lifecycle_effect env c st) as Heff.
    pose proof (lifecycle_effect_inv _ _ _ Heff Hinv) as Hinv'.
    pose proof (lifecycle_effect_row _ _ _ Heff Hinv id j Hj) as Hrow.
    change (run ((env, c) :: cs) st) with (run cs (exec env c st)).
    destruct (jobs (exec env c st) !! id) as [j1|] eqn:Hj1.
    + specialize (IH _ j1 Hinv' Hj1).
      destruct (jobs (run cs (exec env c st)) !! id) as [j'|].
      * destruct IH as [Hp Hw]. split; [|exact Hw].
        by apply (job_progress_trans j j1 j').
      * destruct (Hinv id j Hj) as (_ & _ & Hw).
        destruct (Hinv' id j1 Hj1) as (_ & _ & Hw1).
        apply canDeleteJob_index; [by apply well_staged_known|].
        apply canDeleteJob_index in IH; [|by apply well_staged_known].
        destruct Hrow as (Hle & _). lia.
    + rewrite run_free; [exact Hrow | exact Hj1 |].
      destruct (Hinv id j Hj) as (Hlt & _).
      destruct Heff as [[_ Hnext]|[(? & ? & ? & _ & _ & _ & Hnext)
                       |[(? & _ & _ & Hnext)|(? & ? & _ & _ & _ & Hnext)]]];
        rewrite Hnext; lia.
Qed.

End Runs.

Section RunsNext.

Lemma run_next (cs : list (Env * Command)) (st : Store) :
  nextJobId st <= nextJobId (run cs st).
Proof.
  revert st. induction cs as [|[env c] cs IH]; intros st; [simpl; lia|].
  change (run ((env, c) :: cs) st) with (run cs (exec env c st)).
  specialize (IH (exec env c st)).
  destruct (exec_lifecycle_effect env c st)
    as [[_ Hnext]|[(? & ? & ? & _ & _ & _ & Hnext)
       |[(? & _ & _ & Hnext)|(? & ? & _ & _ & _ & Hnext)]]]; lia.
Qed.

Lemma run_app (cs cs' : list (Env * Command)) (st : Store) :
  run (cs ++ cs') st = run cs' (run cs st).
Proof. unfold run. apply fold_left_app. Qed.

End RunsNext.

(** X14: in every store that the actions build from the empty database, the
    id of a row is its key, its status is one of the seven, and its
    milestone dates are exactly the ones of the statuses it has reached:
    the approval date is set from "Approved" on, the start date from "In
    Progress" on, the completion date from "Completed" on, the invoice date
    from "Invoiced" on and the payment date at "Paid", and not before. *)
Theorem reachable_milestones (st : Store) (id : Z) (j : Job) :
  reachable st -> jobs st !! id = Some j ->
  job_id j = id /\
  status j ∈ JOB_STATUSES /\
  (is_Some (approvalDate j) <-> 2 <= statusIndex (status j)) /\
  (is_Some (startDate j) <-> 3 <= statusIndex (status j)) /\
  (is_Some (completionDate j) <-> 4 <= statusIndex (status j)) /\
  (is_Some (invoiceDate j) <-> 5 <= statusIndex (status j)) /\
  (is_Some (paymentDate j) <-> 6 <= statusIndex (status j)).
Proof.
  intros Hreach Hj.
  destruct (reachable_lifecycle st Hreach id j Hj) as (_ & Hid & Hw).
  split; [exact Hid|]. clear Hid Hj Hreach.
  pose proof (well_staged_known j Hw) as Hk. split; [exact Hk|].
  apply JOB_STATUSES_cases in Hk.
  destruct j as [jid cust en inn ed [ad|] [sd|] [cd|] [ivd|] [pd|] s ta no ca ua];
    cbn [status approvalDate startDate completionDate invoiceDate paymentDate] in *;
    seven_cases Hk; destruct inn; try discriminate Hw;
    do 4 (split; [closed_iff|]); closed_iff.
Qed.

Lemma reachable_milestones_witness :
  exists j : Job, jobs Sample.completed !! 1 = Some j /\
    (is_Some (completionDate j) <-> 4 <= statusIndex (status j)).
Proof.
  assert (Hreach : reachable Sample.completed)
    by (apply reachable_run; constructor).
  eexists. split; [vm_compute; reflexivity|].
  refine (proj1 (proj2 (proj2 (proj2 (proj2
    (reachable_milestones Sample.completed 1 _ Hreach _)))))).
  vm_compute; reflexivity.
Defined.

(** X15: a job never moves back and is never deleted once approved. From a
    store that the actions have built, after any further commands a row is
    still there at the same or a later status of the order, or it is gone
    and had not left "Estimate Created" and "Estimate Sent"; and the id of
    a row that is gone is never given to another row. *)
Theorem status_never_regresses (st : Store) (id : Z) (j : Job)
    (cs : list (Env * Command)) :
  reachable st -> jobs st !! id = Some j ->
  match jobs (run cs st) !! id with
  | Some j' => statusIndex (status j) <= statusIndex (status j')
  | None =>
      (status j = "Estimate Created" \/ status j = "Estimate Sent") /\
      forall cs' : list (Env * Command), jobs (run (cs ++ cs') st) !! id = None
  end.
Proof.
  intros Hreach Hj.
  pose proof (reachable_lifecycle st Hreach) as Hinv.
  pose proof (run_row cs st id j Hinv Hj) as Hrow.
  destruct (jobs (run cs st) !! id) as [j'|] eqn:Hj'.
  - by destruct Hrow as [(Hle & _) _].
  - split.
    + unfold canDeleteJob in Hrow. apply orb_true_iff in Hrow.
      destruct Hrow as [H|H]; [left|right]; by apply String.eqb_eq.
    + intros cs'. rewrite run_app. apply run_free; [exact Hj'|].
      destruct (Hinv id j Hj) as (Hlt & _).
      pose proof (run_next cs st). lia.
Qed.

Lemma status_never_regresses_witness :
  exists j' : Job,
    jobs (run [(Sample.env, CreateInvoice 1)] Sample.completed) !! 1 = Some j' /\
    4 <= statusIndex (status j').
Proof.
  assert (Hreach : reachable Sample.completed)
    by (apply reachable_run; constructor).
  assert (Hj : jobs Sample.completed !! 1 =
               Some (default (Sample.job 1 "") (jobs Sample.completed !! 1)))
    by (vm_compute; reflexivity).
  pose proof (status_never_regresses Sample.completed 1 _
                [(Sample.env, CreateInvoice 1)] Hreach Hj) as H.
  destruct (jobs (run [(Sample.env, CreateInvoice 1)] Sample.completed) !! 1)
    as [j'|] eqn:E.
  - exists j'. split; [reflexivity | exact H].
  - exfalso. vm_compute in E. discriminate E.
Defined.

(** X16: what is recorded on a job stays. From a store that the actions
    have built, after any further commands a row that is still there has
    the id, the customer, the estimate number and the creation time it had,
    and every date column that was set, the estimate date included, holds
    the same date. *)
Theorem recorded_data_permanent (st : Store) (id : Z) (j j' : Job)
    (cs : list (Env * Command)) :
  reachable st -> jobs st !! id = Some j ->
  jobs (run cs st) !! id = Some j' ->
  job_id j' = job_id j /\
  customerId j' = customerId j /\
  estimateNumber j' = estimateNumber j /\
  createdAt j' = createdAt j /\
  estimateDate j' = estimateDate j /\
  forall (field : string) (d : isodate),
    dateColumn field j = Some d -> dateColumn field j' = Some d.
Proof.
  intros Hreach Hj Hj'.
  pose proof (run_row cs st id j (reachable_lifecycle st Hreach) Hj) as Hrow.
  rewrite Hj' in Hrow.
  destruct Hrow as [(_ & H1 & H2 & H3 & H4 & H5 & _) _].
  repeat split; try done.
  specialize (H5 "estimateDate" (estimateDate j) eq_refl).
  by injection H5.
Qed.

Lemma recorded_data_permanent_witness :
  exists j j' : Job,
    jobs Sample.completed !! 1 = Some j /\
    jobs (run [(Sample.env, CreateInvoice 1)] Sample.completed) !! 1 = Some j' /\
    estimateNumber j' = estimateNumber j.
Proof.
  assert (Hreach : reachable Sample.completed)
    by (apply reachable_run; constructor).
  eexists _, _.
  split; [vm_compute; reflexivity|].
  split; [vm_compute; reflexivity|].
  refine (proj1 (proj2 (proj2
    (recorded_data_permanent Sample.completed 1 _ _
       [(Sample.env, CreateInvoice 1)] Hreach _ _)))); vm_compute; reflexivity.
Defined.

(** ** Invoice numbers *)

Section Counting.

Variable col : Job -> option string.
Variable P : string.

Lemma filter_length_perm {A : Type} (f : A -> bool) (l l' : list A) :
  l ≡ₚ l' -> length (List.filter f l) = length (List.filter f l').
Proof.
  induction 1 as [|x l l' _ IH|x y l|l1 l2 l3 _ IH1 _ IH2]; simpl.
  - reflexivity.
  - destruct (f x); simpl; by rewrite IH.
  - destruct (f x), (f y); reflexivity.
  - by rewrite IH1.
Qed.

Lemma countLike_countRows (st : Store) :
  Db.countLike col P st = countRows col P (jobs st).
Proof. reflexivity. Qed.

Lemma countRows_cons (m : gmap Z Job) (l : list (Z * Job)) (id : Z) (j : Job) :
  map_to_list m ≡ₚ (id, j) :: l ->
  countRows col P m =
    hit col P j
    + Z.of_nat (length (List.filter
        (fun kv => match col kv.2 with
                   | Some s => String.prefix P s
                   | None => false
                   end) l)).
Proof.
  intros Hperm. unfold countRows, Db.countLike. cbn [jobs].
  rewrite (filter_length_perm _ _ _ Hperm). unfold hit. simpl.
  destruct (col j) as [s|]; [|lia].
  destruct (String.prefix P s); simpl; lia.
Qed.

Lemma countRows_delete (m : gmap Z Job) (id : Z) (j : Job) :
  m !! id = Some j ->
  countRows col P m = hit col P j + countRows col P (delete id m).
Proof.
  intros Hj.
  rewrite (countRows_cons m (map_to_list (delete id m)) id j); [reflexivity|].
  symmetry. by apply map_to_list_delete.
Qed.

Lemma countRows_insert (m : gmap Z Job) (id : Z) (j : Job) :
  m !! id = None ->
  countRows col P (<[id := j]> m) = hit col P j + countRows col P m.
Proof.
  intros Hj.
  rewrite (countRows_cons (<[id := j]> m) (map_to_list m) id j); [reflexivity|].
  by apply map_to_list_insert.
Qed.

Lemma countRows_update (m : gmap Z Job) (id : Z) (j j' : Job) :
  m !! id = Some j ->
  countRows col P (<[id := j']> m) = countRows col P m - hit col P j + hit col P j'.
Proof.
  intros Hj. rewrite <- insert_delete_eq.
  rewrite countRows_insert by apply lookup_delete_eq.
  rewrite (countRows_delete m id j Hj). lia.
Qed.

Lemma countRows_nonneg (m : gmap Z Job) : 0 <= countRows col P m.
Proof. unfold countRows, Db.countLike. lia. Qed.

End Counting.

Section NumberText.

Lemma prefix_append (p s : string) : String.prefix p (p +:+ s) = true.
Proof.
  induction p as [|c p IH]; [by destruct s|].
  rewrite append_cons. simpl. by destruct (Ascii.ascii_dec c c).
Qed.

Lemma prefix_same_length (p q s : string) :
  String.length p = String.length q ->
  String.prefix p (q +:+ s) = true -> p = q.
Proof.
  revert q. induction p as [|c p IH]; intros [|d q] Hlen Hpre;
    try discriminate Hlen; [reflexivity|].
  rewrite append_cons in Hpre. simpl in Hpre.
  destruct (Ascii.ascii_dec c d) as [->|]; [|discriminate].
  f_equal. apply IH; [by injection Hlen | done].
Qed.

Lemma append_inj_length (p q a b : string) :
  String.length p = String.length q ->
  p +:+ a = q +:+ b -> p = q /\ a = b.
Proof.
  revert q. induction p as [|c p IH]; intros [|d q] Hlen Heq;
    try discriminate Hlen; [by split|].
  rewrite !append_cons in Heq. injection Heq as -> Heq.
  destruct (IH q) as [-> ->]; [by injection Hlen | done | by split].
Qed.

Lemma sequenceText_value (k : Z) :
  0 <= k -> Js.parseNumeral (sequenceText k) 0 = Some (inject_Z k).
Proof.
  intros Hk. unfold sequenceText.
  destruct (decide (k < 1000)) as [Hlt|Hge].
  - rewrite padStart3_threeDigits by lia. apply parseNumeral_threeDigits. lia.
  - rewrite padStart_long.
    + rewrite <- (append_nil_r (Js.toString k)).
      by rewrite parseNumeral_toString.
    + pose proof (length_toString_1000 k ltac:(lia)). lia.
Qed.

Lemma sequenceText_inj (k k' : Z) :
  0 <= k -> 0 <= k' -> sequenceText k = sequenceText k' -> k = k'.
Proof.
  intros Hk Hk' Heq.
  pose proof (sequenceText_value k Hk) as H1.
  rewrite Heq, (sequenceText_value k' Hk') in H1.
  by injection H1.
Qed.

Lemma length_twoDigits (m : Z) : String.length (twoDigits m) = 2%nat.
Proof. reflexivity. Qed.

Lemma length_datePrefix (today : JsDate) :
  calendar_date today -> String.length (datePrefix today) = 6%nat.
Proof.
  intros Hcal. rewrite datePrefix_digits by done.
  by rewrite !length_append, !length_twoDigits.
Qed.

End NumberText.

Section Numbering.

Lemma job_update_number (mint : string) (j j' : Job) :
  job_update mint j j' ->
  invoiceNumber j' = invoiceNumber j \/
  (status j = "Completed" /\ invoiceNumber j' = Some mint).
Proof.
  intros [t n a | t n | t d s' Hadv | t d Hs | t d Hs].
  - by left.
  - by left.
  - left. cbn [invoiceNumber set_updatedAt].
    pose proof (set_dateUpdates_keeps (getStatusDateUpdates s' d)
                  (set_status s' j)) as Hk.
    cbv zeta in Hk. by destruct Hk as (_ & _ & _ & Hin & _).
  - right. split; [exact Hs|]. reflexivity.
  - by left.
Qed.

Lemma well_staged_no_number (j : Job) :
  well_staged j = true -> statusIndex (status j) <= 4 -> invoiceNumber j = None.
Proof.
  intros Hw Hle. destruct (invoiceNumber j) as [n|] eqn:Hn; [|reflexivity].
  unfold well_staged in Hw. rewrite Hn in Hw. cbn [isSet implb] in Hw.
  apply andb_true_iff in Hw. destruct Hw as [_ Hw].
  apply Z.leb_le in Hw. lia.
Qed.

(** What a command does to the invoice numbers: nothing, or it gives the
    number [mint] to a row that had none. *)
Lemma effect_numbers (mint : string) (st st' : Store) :
  lifecycle_effect mint st st' -> lifecycle_inv st ->
  ((forall P : string,
      Db.countLike invoiceNumber P st' = Db.countLike invoiceNumber P st) /\
   (forall (id : Z) (n : string), numbered st' id n <-> numbered st id n)) \/
  (exists id0 : Z,
     (forall n : string, ~ numbered st id0 n) /\
     (forall P : string,
        Db.countLike invoiceNumber P st' =
          Db.countLike invoiceNumber P st
          + (if String.prefix P mint then 1 else 0)) /\
     (forall (id : Z) (n : string),
        numbered st' id n <-> numbered st id n \/ (id = id0 /\ n = mint))).
Proof.
  intros Heff Hinv.
  destruct Heff as [[Hjobs Hnext]
                   |[(id0 & j0 & j0' & Hj0 & Hup & Hjobs & Hnext)
                   |[(j0 & Hfresh & Hjobs & Hnext)
                   |(id0 & j0 & Hj0 & Hdel & Hjobs & Hnext)]]].
  - left. split.
    + intros P. by rewrite !countLike_countRows, Hjobs.
    + intros id n. unfold numbered. by rewrite Hjobs.
  - destruct (Hinv id0 j0 Hj0) as (_ & _ & Hw).
    destruct (job_update_number mint j0 j0' Hup) as [Hkeep|[Hs Hmint]].
    + left. split.
      * intros P. rewrite !countLike_countRows, Hjobs.
        rewrite (countRows_update _ _ _ id0 j0 j0' Hj0).
        unfold hit. rewrite Hkeep. lia.
      * intros id n. unfold numbered. rewrite Hjobs.
        destruct (decide (id0 = id)) as [->|Hne].
        -- rewrite lookup_insert_eq, Hj0. split.
           ++ intros (j & Hj & Hn). injection Hj as <-. exists j0.
              split; [reflexivity | congruence].
           ++ intros (j & Hj & Hn). injection Hj as <-. exists j0'.
              split; [reflexivity | congruence].
        -- by rewrite lookup_insert_ne.
    + assert (Hnone : invoiceNumber j0 = None).
      { apply well_staged_no_number; [exact Hw|]. rewrite Hs. by vm_compute. }
      right. exists id0. split; [|split].
      * intros n (j & Hj & Hn). congruence.
      * intros P. rewrite !countLike_countRows, Hjobs.
        rewrite (countRows_update _ _ _ id0 j0 j0' Hj0).
        unfold hit. rewrite Hnone, Hmint. lia.
      * intros id n. unfold numbered. rewrite Hjobs.
        destruct (decide (id0 = id)) as [->|Hne].
        -- rewrite lookup_insert_eq, Hj0. split.
           ++ intros (j & Hj & Hn). injection Hj as <-. right.
              split; [reflexivity | congruence].
           ++ intros [(j & Hj & Hn)|[_ ->]]; [congruence|].
              exists j0'. by split.
        -- rewrite lookup_insert_ne by done. split; [by left|].
           intros [H|[-> _]]; [done | congruence].
  - assert (Hfree : jobs st !! nextJobId st = None).
    { destruct (jobs st !! nextJobId st) as [j|] eqn:Hj; [|reflexivity].
      destruct (Hinv _ j Hj) as (Hlt & _). lia. }
    destruct Hfresh as (_ & _ & Hnone & _).
    left. split.
    + intros P. rewrite !countLike_countRows, Hjobs.
      rewrite countRows_insert by done. unfold hit. rewrite Hnone. lia.
    + intros id n. unfold numbered. rewrite Hjobs.
      destruct (decide (nextJobId st = id)) as [<-|Hne].
      * rewrite lookup_insert_eq, Hfree. split.
        -- intros (j & Hj & Hn). injection Hj as <-. congruence.
        -- intros (j & Hj & _). discriminate.
      * by rewrite lookup_insert_ne.
  - destruct (Hinv id0 j0 Hj0) as (_ & _ & Hw).
    assert (Hnone : invoiceNumber j0 = None).
    { apply well_staged_no_number; [exact Hw|].
      apply canDeleteJob_index in Hdel; [lia | by apply well_staged_known]. }
    left. split.
    + intros P. rewrite !countLike_countRows, Hjobs.
      rewrite (countRows_delete _ _ (jobs st) id0 j0 Hj0).
      unfold hit. rewrite Hnone. lia.
    + intros id n. unfold numbered. rewrite Hjobs.
      destruct (decide (id0 = id)) as [->|Hne].
      * rewrite lookup_delete_eq, Hj0. split.
        -- intros (j & Hj & _). discriminate.
        -- intros (j & Hj & Hn). injection Hj as <-. congruence.
      * by rewrite lookup_delete_ne.
Qed.

Lemma exec_numbering (env : Env) (c : Command) (st : Store) :
  calendar_date (now env) -> lifecycle_inv st -> numbering st ->
  numbering (exec env c st).
Proof.
  intros Hcal Hinv (Hform & Hfull & Huniq).
  pose proof (length_datePrefix _ Hcal) as Hlen.
  destruct (effect_numbers _ _ _ (exec_lifecycle_effect env c st) Hinv)
    as [[Hcount Hnum]|(id0 & Hnew & Hcount & Hnum)].
  - split; [|split].
    + intros id n Hn. apply Hnum in Hn.
      destruct (Hform id n Hn) as (P & k & HP & -> & Hk).
      exists P, k. by rewrite Hcount.
    + intros P k HP Hk. rewrite Hcount in Hk.
      destruct (Hfull P k HP Hk) as (id & Hn). exists id. by apply Hnum.
    + intros id1 id2 n H1 H2. apply Hnum in H1, H2. by apply (Huniq id1 id2 n).
  - set (P0 := datePrefix (now env)) in *.
    set (c0 := Db.countLike invoiceNumber P0 st) in *.
    assert (Hc0 : 0 <= c0) by (unfold c0, Db.countLike; lia).
    assert (Hmint : generateInvoiceNumber (now env) st = P0 +:+ sequenceText (c0 + 1))
      by reflexivity.
    rewrite Hmint in Hcount, Hnum. clear Hmint.
    assert (Hold : forall id : Z, ~ numbered st id (P0 +:+ sequenceText (c0 + 1))).
    { intros id Hn. destruct (Hform id _ Hn) as (P & k & HP & Heq & Hk).
      apply append_inj_length in Heq; [|congruence].
      destruct Heq as [<- Heq]. apply sequenceText_inj in Heq; [|lia|lia].
      fold c0 in Hk. lia. }
    split; [|split].
    + intros id n Hn. apply Hnum in Hn. destruct Hn as [Hn|[-> ->]].
      * destruct (Hform id n Hn) as (P & k & HP & -> & Hk).
        exists P, k. rewrite Hcount.
        repeat split; [done | lia |].
        destruct (String.prefix P _); lia.
      * exists P0, (c0 + 1). rewrite Hcount, prefix_append. fold c0.
        repeat split; [done | lia | lia].
    + intros P k HP Hk. rewrite Hcount in Hk.
      destruct (String.prefix P (P0 +:+ sequenceText (c0 + 1))) eqn:Hpre.
      * apply prefix_same_length in Hpre; [|congruence]. subst P. fold c0 in Hk.
        destruct (decide (k = c0 + 1)) as [->|Hne].
        -- exists id0. apply Hnum. by right.
        -- destruct (Hfull P0 k HP) as (id & Hn); [fold c0; lia|].
           exists id. apply Hnum. by left.
      * destruct (Hfull P k HP) as (id & Hn); [lia|].
        exists id. apply Hnum. by left.
    + intros id1 id2 n H1 H2. apply Hnum in H1, H2.
      destruct H1 as [H1|[E1 F1]], H2 as [H2|[E2 F2]].
      * by apply (Huniq id1 id2 n).
      * rewrite F2 in H1. by destruct (Hold id1).
      * rewrite F1 in H2. by destruct (Hold id2).
      * congruence.
Qed.

Lemma run_numbering (cs : list (Env * Command)) (st : Store) :
  calendar_run cs -> lifecycle_inv st -> numbering st ->
  lifecycle_inv (run cs st) /\ numbering (run cs st).
Proof.
  revert st. induction cs as [|[env c] cs IH]; intros st Hcal Hinv Hnum;
    [by split|].
  apply Forall_cons in Hcal. destruct Hcal as [Hcal Hcs].
  change (run ((env, c) :: cs) st) with (run cs (exec env c st)).
  apply IH; [exact Hcs | | by apply exec_numbering].
  exact (lifecycle_effect_inv _ _ _ (exec_lifecycle_effect env c st) Hinv).
Qed.

Lemma empty_numbering : lifecycle_inv empty_store /\ numbering empty_store.
Proof.
  split.
  - intros id j Hj. unfold empty_store in Hj. simpl in Hj.
    by rewrite lookup_empty in Hj.
  - split; [|split].
    + intros id n (j & Hj & _). unfold empty_store in Hj. simpl in Hj.
      by rewrite lookup_empty in Hj.
    + intros P k _ Hk. unfold Db.countLike, empty_store in Hk. simpl in Hk.
      rewrite map_to_list_empty in Hk. simpl in Hk. lia.
    + intros id1 id2 n (j & Hj & _). unfold empty_store in Hj. simpl in Hj.
      by rewrite lookup_empty in Hj.
Qed.

End Numbering.

(** X17: invoice numbers are never given twice. In a store built from the
    empty database by commands issued on calendar dates, two rows that carry
    the same invoice number are the same row. *)
Theorem invoice_numbers_unique (cs : list (Env * Command)) (id1 id2 : Z)
    (j1 j2 : Job) (n : string) :
  calendar_run cs ->
  jobs (run cs empty_store) !! id1 = Some j1 ->
  jobs (run cs empty_store) !! id2 = Some j2 ->
  invoiceNumber j1 = Some n -> invoiceNumber j2 = Some n ->
  id1 = id2.
Proof.
  intros Hcal H1 H2 Hn1 Hn2.
  destruct empty_numbering as [Hinv Hnum].
  destruct (run_numbering cs empty_store Hcal Hinv Hnum) as (_ & _ & _ & Huniq).
  apply (Huniq id1 id2 n); [by exists j1 | by exists j2].
Qed.

(** X18: the invoice numbers of a day are numbered without gaps. In a store
    built from the empty database by commands issued on calendar dates,
    every invoice number is a six-character prefix followed by the padded
    text of a sequence number between 1 and the number of invoice numbers
    with that prefix, and each sequence number in that range is carried by
    some row. *)
Theorem invoice_numbers_consecutive (cs : list (Env * Command)) :
  calendar_run cs ->
  let st := run cs empty_store in
  (forall (id : Z) (j : Job) (n : string),
     jobs st !! id = Some j -> invoiceNumber j = Some n ->
     exists (P : string) (k : Z),
       String.length P = 6%nat /\
       n = P +:+ Js.padStart 3 "0" (Js.toString k) /\
       1 <= k <= Db.countLike invoiceNumber P st) /\
  (forall (P : string) (k : Z),
     String.length P = 6%nat -> 1 <= k <= Db.countLike invoiceNumber P st ->
     exists (id : Z) (j : Job),
       jobs st !! id = Some j /\
       invoiceNumber j = Some (P +:+ Js.padStart 3 "0" (Js.toString k))).
Proof.
  intros Hcal. cbv zeta.
  destruct empty_numbering as [Hinv Hnum].
  destruct (run_numbering cs empty_store Hcal Hinv Hnum)
    as (_ & Hform & Hfull & _).
  split.
  - intros id j n Hj Hn. apply (Hform id n). by exists j.
  - intros P k HP Hk. destruct (Hfull P k HP Hk) as (id & j & Hj & Hn).
    by exists id, j.
Qed.

Lemma invoice_numbers_unique_witness : (1 : Z) = 1.
Proof.
  assert (Hcal : calendar_run invoiced_commands)
    by (repeat constructor; simpl; lia).
  refine (invoice_numbers_unique invoiced_commands 1 1 _ _ _ Hcal _ _ _ _).
  - vm_compute; reflexivity.
  - vm_compute; reflexivity.
  - vm_compute; reflexivity.
  - reflexivity.
Defined.

Lemma invoice_numbers_consecutive_witness :
  exists (id : Z) (j : Job),
    jobs (run invoiced_commands empty_store) !! id = Some j /\
    invoiceNumber j = Some ("250714" +:+ Js.padStart 3 "0" (Js.toString 1)).
Proof.
  assert (Hcal : calendar_run invoiced_commands)
    by (repeat constructor; simpl; lia).
  refine (proj2 (invoice_numbers_consecutive invoiced_commands Hcal)
            "250714" 1 eq_refl _).
  vm_compute. split; discriminate.
Defined.

(** ** Line items *)

Section Items.

Lemma filter_no_rows (id : Z) (l : list LineItem) :
  (forall r : LineItem, r ∈ l -> jobId r <> id) ->
  List.filter (fun r => jobId r =? id) l = [].
Proof.
  induction l as [|r l IH]; intros H; [reflexivity|]. simpl.
  destruct (Z.eqb_spec (jobId r) id) as [E|_].
  - destruct (H r); [by left | done].
  - apply IH. intros r' Hr'. apply H. by right.
Qed.

Lemma jobId_rows (id k next : Z) (items : list LineItemInput) (r : LineItem) :
  r ∈ assignIds (lineItemRows id k items) next -> jobId r = id.
Proof.
  revert k next. induction items as [|item items IH]; intros k next Hr.
  - by apply elem_of_nil in Hr.
  - cbn [lineItemRows assignIds] in Hr. apply elem_of_cons in Hr.
    destruct Hr as [->|Hr]; [reflexivity | by apply IH in Hr].
Qed.

Lemma elem_of_filter_bool {A : Type} (f : A -> bool) (l : list A) (x : A) :
  x ∈ List.filter f l -> x ∈ l /\ f x = true.
Proof.
  rewrite !list_elem_of_In. apply List.filter_In.
Qed.

Lemma createEstimate_store (env : Env) (customer : Z)
    (items : list LineItemInput) (notes' : option string) (st : Store) :
  items <> [] -> validateLineItems 0 items = None ->
  let r := createEstimate env customer items notes' st in
  success r.1 = true /\
  exists row : Job,
    job_id row = nextJobId st /\
    jobs r.2 = <[nextJobId st := row]> (jobs st) /\
    lineItems r.2 =
      lineItems st
      ++ assignIds (lineItemRows (nextJobId st) 0 items) (nextLineItemId st) /\
    payload r.1 = Some (row, Db.selectLineItems (nextJobId st) r.2).
Proof.
  intros Hne Hval. cbv zeta. unfold createEstimate.
  assert (Hlen : (Z.of_nat (length items) =? 0) = false).
  { apply Z.eqb_neq. destruct items; [done | simpl; lia]. }
  rewrite Hlen, Hval. cbn [Db.insertJob job_id fst snd success succeed_with payload].
  split; [reflexivity|]. eexists.
  split; [|split; [reflexivity|]]; [reflexivity|].
  split; [reflexivity|].
  unfold getEstimateById, Db.selectJob.
  cbn [jobs Db.insertLineItems]. by rewrite lookup_insert_eq.
Qed.

Lemma updateEstimate_store (env : Env) (id : Z) (items : option (list LineItemInput))
    (notes' : option string) (st : Store) :
  (updateEstimate env id items notes' st).2 = st \/
  (exists f : Job -> Job,
     (updateEstimate env id items notes' st).2 = Db.updateJob id f st) \/
  (exists (f : Job -> Job) (l : list LineItemInput) (job : Job),
     l <> [] /\ jobs st !! id = Some job /\
     (updateEstimate env id items notes' st).2 =
       Db.updateJob id f
         (Db.insertLineItems (lineItemRows id 0 l) (Db.deleteLineItems id st))).
Proof.
  unfold updateEstimate, Db.selectJob.
  destruct (jobs st !! id) as [job|] eqn:Hjob; [|by left].
  destruct (canEditJob (status job)); cbn [negb]; [|by left].
  destruct items as [l|].
  - destruct (Z.eqb_spec (Z.of_nat (length l)) 0) as [E|E]; [by left|].
    right; right. eexists _, l, job.
    split; [by intros ->|]. split; [reflexivity|]. reflexivity.
  - destruct notes'; [|by left]. right; left. by eexists.
Qed.

(** The commands that touch neither the line items nor the set of rows. *)
Lemma exec_other (env : Env) (c : Command) (st : Store) :
  match c with
  | CreateEstimate _ _ _ | UpdateEstimate _ _ _ | DeleteEstimate _ => True
  | _ => exec env c st = st \/
         exists (id : Z) (f : Job -> Job), exec env c st = Db.updateJob id f st
  end.
Proof.
  destruct c as [customer items n | id items n | id | id | id | id s | id | id
                | id n | id | id d | id n]; try exact I; unfold exec.
  - unfold markEstimateAsSent, Db.selectJob.
    destruct (jobs st !! id) as [job|]; [|by left].
    destruct (negb _); [by left | right; by eexists _, _].
  - unfold approveEstimate, Db.selectJob.
    destruct (jobs st !! id) as [job|]; [|by left].
    destruct (negb _ && negb _); [by left | right; by eexists _, _].
  - unfold updateJobStatus, Db.selectJob.
    destruct (jobs st !! id) as [job|]; [|by left].
    destruct (negb _); [by left | right; by eexists _, _].
  - unfold startJob, updateJobStatus, Db.selectJob.
    destruct (jobs st !! id) as [job|]; [|by left].
    destruct (negb _); [by left | right; by eexists _, _].
  - unfold completeJob, updateJobStatus, Db.selectJob.
    destruct (jobs st !! id) as [job|]; [|by left].
    destruct (negb _); [by left | right; by eexists _, _].
  - right. by eexists _, _.
  - unfold createInvoice, Db.selectJob.
    destruct (jobs st !! id) as [job|]; [|by left].
    destruct (negb _); [by left | right; by eexists _, _].
  - unfold recordPayment, Db.selectJob.
    destruct (jobs st !! id) as [job|]; [|by left].
    destruct (negb _); [by left | right; by eexists _, _].
  - unfold updateInvoiceNotes, Db.selectJob.
    destruct (jobs st !! id) as [job|]; [|by left].
    destruct (String.eqb _ _); [by left | right; by eexists _, _].
Qed.

Lemma updateJob_items (id : Z) (f : Job -> Job) (st : Store) :
  items_inv st -> items_inv (Db.updateJob id f st).
Proof.
  intros [Hnum Horph]. split.
  - intros id' j Hj. cbn [jobs Db.updateJob] in Hj.
    assert (Hsome : is_Some (jobs st !! id')).
    { destruct (decide (id = id')) as [->|Hne].
      - rewrite lookup_alter_eq in Hj.
        destruct (jobs st !! id'); [by eexists | discriminate].
      - rewrite lookup_alter_ne in Hj by done. by eexists. }
    destruct Hsome as [j0 Hj0]. exact (Hnum id' j0 Hj0).
  - intros r Hr. cbn [jobs lineItems Db.updateJob] in *.
    destruct (Horph r Hr) as [j Hj].
    destruct (decide (id = jobId r)) as [->|Hne].
    + rewrite lookup_alter_eq, Hj. by eexists.
    + rewrite lookup_alter_ne by done. by eexists.
Qed.

Lemma exec_items (env : Env) (c : Command) (st : Store) :
  lifecycle_inv st -> items_inv st -> items_inv (exec env c st).
Proof.
  intros Hinv Hitems.
  pose proof (exec_other env c st) as Hother.
  destruct c as [customer items n | id items n | id | id | id | id s | id | id
                | id n | id | id d | id n];
    try (destruct Hother as [->|(id0 & f & ->)];
         [exact Hitems | by apply updateJob_items]).
  - (* createEstimate *)
    unfold exec. destruct Hitems as [Hnum Horph].
    destruct (decide (items = [])) as [->|Hne]; [by split|].
    destruct (validateLineItems 0 items) eqn:Hval.
    { unfold createEstimate. rewrite Hval.
      by destruct (Z.of_nat (length items) =? 0). }
    destruct (createEstimate_store env customer items n st Hne Hval)
      as (_ & row & Hid & Hjobs & Hrows & _).
    assert (Hfresh : forall r : LineItem, r ∈ lineItems st -> jobId r <> nextJobId st).
    { intros r Hr E. destruct (Horph r Hr) as [j Hj].
      destruct (Hinv _ j Hj) as (Hlt & _). lia. }
    split.
    + intros id j Hj. rewrite Hjobs in Hj. unfold Db.selectLineItems.
      rewrite Hrows, List.filter_app.
      destruct (decide (nextJobId st = id)) as [<-|Hneq].
      * rewrite (filter_no_rows _ _ Hfresh), filter_rows_same. simpl.
        rewrite sort_rows, itemNumber_rows.
        exists (Z.of_nat (length items)). split; [|reflexivity].
        destruct items; [done | simpl; lia].
      * rewrite lookup_insert_ne in Hj by done.
        rewrite filter_rows_other, app_nil_r by done.
        exact (Hnum id j Hj).
    + intros r Hr. rewrite Hrows in Hr. rewrite Hjobs.
      apply elem_of_app in Hr. destruct Hr as [Hr|Hr].
      * rewrite lookup_insert_ne by (intros E; by apply (Hfresh r Hr)).
        by apply Horph.
      * apply jobId_rows in Hr. rewrite Hr, lookup_insert_eq. by eexists.
  - (* updateEstimate *)
    unfold exec.
    destruct (updateEstimate_store env id items n st)
      as [->|[(f & ->)|(f & l & job & Hne & Hjob & ->)]];
      [exact Hitems | by apply updateJob_items |].
    apply updateJob_items. destruct Hitems as [Hnum Horph]. split.
    + intros id' j Hj. cbn [jobs Db.insertLineItems Db.deleteLineItems] in Hj.
      unfold Db.selectLineItems. rewrite insertLineItems_rows.
      cbn [lineItems nextLineItemId Db.deleteLineItems].
      rewrite List.filter_app.
      destruct (decide (id' = id)) as [->|Hneq].
      * rewrite filter_same_job, filter_rows_same. simpl.
        rewrite sort_rows, itemNumber_rows.
        exists (Z.of_nat (length l)). split; [|reflexivity].
        destruct l; [done | simpl; lia].
      * rewrite filter_other_job, filter_rows_other, app_nil_r by done.
        exact (Hnum id' j Hj).
    + intros r Hr. rewrite insertLineItems_rows in Hr.
      cbn [jobs lineItems nextLineItemId Db.insertLineItems Db.deleteLineItems] in *.
      apply elem_of_app in Hr. destruct Hr as [Hr|Hr].
      * apply elem_of_filter_bool in Hr. by apply Horph, Hr.
      * apply jobId_rows in Hr. rewrite Hr, Hjob. by eexists.
  - (* deleteEstimate *)
    unfold exec, deleteEstimate, Db.selectJob.
    destruct (jobs st !! id) as [job|] eqn:Hjob; [|exact Hitems].
    destruct (canDeleteJob (status job)); cbn [negb snd]; [|exact Hitems].
    destruct Hitems as [Hnum Horph]. split.
    + intros id' j Hj. cbn [jobs Db.deleteJob Db.deleteLineItems] in Hj.
      destruct (decide (id = id')) as [->|Hneq].
      * by rewrite lookup_delete_eq in Hj.
      * rewrite lookup_delete_ne in Hj by done.
        unfold Db.selectLineItems. cbn [lineItems Db.deleteJob Db.deleteLineItems].
        rewrite filter_other_job by done. exact (Hnum id' j Hj).
    + intros r Hr. cbn [jobs lineItems Db.deleteJob Db.deleteLineItems] in *.
      apply elem_of_filter_bool in Hr. destruct Hr as [Hr Hneq].
      apply negb_true_iff, Z.eqb_neq in Hneq.
      rewrite lookup_delete_ne by done. by apply Horph.
Qed.

Lemma reachable_items (st : Store) : reachable st -> items_inv st.
Proof.
  induction 1 as [|env c st Hreach IH].
  - split.
    + intros id j Hj. unfold empty_store in Hj. simpl in Hj.
      by rewrite lookup_empty in Hj.
    + intros r Hr. unfold empty_store in Hr. simpl in Hr.
      by apply elem_of_nil in Hr.
  - apply exec_items; [by apply reachable_lifecycle | exact IH].
Qed.

End Items.

Section ItemsRows.

Lemma jobId_fmap_rows (id k next : Z) (items : list LineItemInput) :
  jobId <$> assignIds (lineItemRows id k items) next = replicate (length items) id.
Proof.
  revert k next. induction items as [|item items IH]; intros k next;
    [reflexivity|].
  cbn [lineItemRows assignIds fmap list_fmap jobId length replicate].
  f_equal. apply IH.
Qed.

End ItemsRows.





(** ** The dashboard *)

Section Dashboard.

Lemma countIf_cons (p : Job -> bool) (j : Job) (l : list Job) :
  countIf p (j :: l) = (if p j then 1 else 0) + countIf p l.
Proof.
  unfold countIf. simpl. destruct (p j); simpl; lia.
Qed.

Lemma countIf_allJobs (p : Job -> bool) (f : Z -> bool) (st : Store) :
  (forall (id : Z) (j : Job), jobs st !! id = Some j -> p j = f id) ->
  countIf p (allJobs st) = countIds f st.
Proof.
  intros Hpf. unfold countIf, countIds, allJobs.
  assert (H : forall kv : Z * Job, kv ∈ map_to_list (jobs st) -> p kv.2 = f kv.1).
  { intros [id j] Hin. apply elem_of_map_to_list in Hin. by apply Hpf. }
  induction (map_to_list (jobs st)) as [|kv l IH]; [reflexivity|].
  cbn [fmap list_fmap List.filter].
  change (list_fmap _ _ snd l) with (l.*2).
  rewrite (H kv) by left.
  assert (IH' := IH (fun kv' Hin => H kv' (list_elem_of_further _ _ _ Hin))).
  destruct (f kv.1); simpl; lia.
Qed.

Lemma canTransitionTo_eqb_active (s : string) :
  canTransitionTo s "In Progress" = String.eqb s "Approved" /\
  canTransitionTo s "Completed" = String.eqb s "In Progress".
Proof.
  destruct (decide (s ∈ JOB_STATUSES)) as [Hs|Hs].
  - apply JOB_STATUSES_cases in Hs. seven_cases Hs; vm_compute; auto.
  - unfold canTransitionTo. rewrite (indexOf_notin STATUS_ORDER _ Hs).
    assert (Hne : forall t : string, t ∈ JOB_STATUSES -> String.eqb s t = false).
    { intros t Ht. destruct (String.eqb_spec s t) as [->|]; [contradiction|done]. }
    rewrite !Hne by (unfold JOB_STATUSES; repeat constructor).
    vm_compute. auto.
Qed.

End Dashboard.

(** X21: each count of [getQuickActionCounts] is the number of jobs on
    which the action behind the dashboard button succeeds:
    [markEstimateAsSent] for [estimatesToSend], [startJob] for
    [jobsToStart], [completeJob] for [jobsToComplete], [createInvoice] for
    [jobsToInvoice] and [recordPayment] for [invoicesToCollect]; this holds
    on every store, whatever the clock and the payment date. *)
Theorem quick_action_counts_enabled (env : Env) (d : option isodate) (st : Store) :
  let q := getQuickActionCounts st in
  estimatesToSend q = countIds (fun id => success (markEstimateAsSent env id st).1) st /\
  jobsToStart q = countIds (fun id => success (startJob env id st).1) st /\
  jobsToComplete q = countIds (fun id => success (completeJob env id st).1) st /\
  jobsToInvoice q = countIds (fun id => success (createInvoice env id st).1) st /\
  invoicesToCollect q = countIds (fun id => success (recordPayment env id d st).1) st.
Proof.
  cbv zeta. unfold getQuickActionCounts.
  cbn [estimatesToSend jobsToStart jobsToComplete jobsToInvoice invoicesToCollect].
  repeat split; apply countIf_allJobs; intros id j Hj.
  - unfold markEstimateAsSent, Db.selectJob. rewrite Hj.
    by destruct (String.eqb (status j) "Estimate Created").
  - unfold startJob, updateJobStatus, Db.selectJob. rewrite Hj.
    rewrite (proj1 (canTransitionTo_eqb_active (status j))).
    by destruct (String.eqb (status j) "Approved").
  - unfold completeJob, updateJobStatus, Db.selectJob. rewrite Hj.
    rewrite (proj2 (canTransitionTo_eqb_active (status j))).
    by destruct (String.eqb (status j) "In Progress").
  - unfold createInvoice, Db.selectJob. rewrite Hj.
    by destruct (String.eqb (status j) "Completed").
  - unfold recordPayment, Db.selectJob. rewrite Hj.
    by destruct (String.eqb (status j) "Invoiced").
Qed.

Section DashboardCounts.

Ltac status_tests j :=
  repeat match goal with
         | |- context [String.eqb (status j) ?t] =>
             let E := fresh "E" in
             destruct (String.eqb_spec (status j) t) as [E|E]; [rewrite E in *|]
         end.

Lemma counts_agree (l : list Job) :
  let active (job : Job) :=
    includes ["Approved"; "In Progress"; "Completed"; "Invoiced"] (status job) in
  countIf active l =
    countIf (fun job => String.eqb (status job) "Approved") l
    + countIf (fun job => String.eqb (status job) "In Progress") l
    + countIf (fun job => String.eqb (status job) "Completed") l
    + countIf (fun job => String.eqb (status job) "Invoiced") l /\
  countIf active l = countIf (fun job => isActiveJob (status job)) l /\
  countIf (fun job => String.eqb (status job) "Estimate Created") l
    <= countIf (fun job => String.eqb (status job) "Estimate Created"
                           || String.eqb (status job) "Estimate Sent") l.
Proof.
  cbv zeta. induction l as [|j l (IH1 & IH2 & IH3)]; [by vm_compute|].
  rewrite !countIf_cons. unfold includes, isActiveJob in *. cbn [existsb] in *.
  repeat split; status_tests j; cbn; lia.
Qed.

Lemma counts_partition (l : list Job) :
  Forall (fun job => status job ∈ JOB_STATUSES) l ->
  countIf (fun job => String.eqb (status job) "Estimate Created"
                      || String.eqb (status job) "Estimate Sent") l
  + countIf (fun job =>
               includes ["Approved"; "In Progress"; "Completed"; "Invoiced"]
                 (status job)) l
  + countIf (fun job => isPaid (status job)) l
  = Z.of_nat (length l).
Proof.
  induction 1 as [|j l Hj _ IH]; [reflexivity|].
  rewrite !countIf_cons. cbn [length]. rewrite Nat2Z.inj_succ.
  unfold includes in *. cbn [existsb] in *.
  apply JOB_STATUSES_cases in Hj.
  destruct Hj as [E|[E|[E|[E|[E|[E|E]]]]]]; rewrite E; cbn -[countIf Z.of_nat]; lia.
Qed.

End DashboardCounts.



(** ** From the estimate to the payment *)

Section Path.

Lemma approveEstimate_row (env : Env) (id : Z) (st : Store) (j : Job) :
  jobs st !! id = Some j -> status j = "Estimate Created" ->
  jobs (approveEstimate env id st).2 !! id =
    Some (set_updatedAt (getTime (now env))
            (set_approvalDate (Some (toISODate (now env)))
               (set_status "Approved" j))).
Proof.
  intros Hj Hs. unfold approveEstimate, Db.selectJob. rewrite Hj, Hs.
  cbn [String.eqb Ascii.eqb Bool.eqb negb andb snd jobs Db.updateJob].
  by rewrite lookup_alter_eq, Hj.
Qed.

Lemma updateJobStatus_row (env : Env) (id : Z) (s : string) (st : Store) (j : Job) :
  jobs st !! id = Some j -> canTransitionTo (status j) s = true ->
  jobs (updateJobStatus env id s st).2 !! id =
    Some (set_updatedAt (getTime (now env))
            (set_dateUpdates (getStatusDateUpdates s (now env))
               (set_status s j))).
Proof.
  intros Hj Hc. unfold updateJobStatus, Db.selectJob. rewrite Hj, Hc.
  cbn [negb snd jobs Db.updateJob]. by rewrite lookup_alter_eq, Hj.
Qed.

Lemma createInvoice_row (env : Env) (id : Z) (st : Store) (j : Job) :
  jobs st !! id = Some j -> status j = "Completed" ->
  jobs (createInvoice env id st).2 !! id =
    Some (set_updatedAt (getTime (now env))
            (set_invoiceDate (Some (toISODate (now env)))
               (set_invoiceNumber (Some (generateInvoiceNumber (now env) st))
                  (set_status "Invoiced" j)))).
Proof.
  intros Hj Hs. unfold createInvoice, Db.selectJob. rewrite Hj, Hs.
  cbn [String.eqb Ascii.eqb Bool.eqb negb snd jobs Db.updateJob].
  by rewrite lookup_alter_eq, Hj.
Qed.

Lemma recordPayment_row (env : Env) (id : Z) (d : option isodate) (st : Store)
    (j : Job) :
  jobs st !! id = Some j -> status j = "Invoiced" ->
  jobs (recordPayment env id d st).2 !! id =
    Some (set_updatedAt (getTime (now env))
            (set_paymentDate (Some (default (toISODate (now env)) d))
               (set_status "Paid" j))).
Proof.
  intros Hj Hs. unfold recordPayment, Db.selectJob. rewrite Hj, Hs.
  cbn [String.eqb Ascii.eqb Bool.eqb negb snd jobs Db.updateJob].
  rewrite lookup_alter_eq, Hj. by destruct d.
Qed.

Lemma createEstimate_row (env : Env) (customer : Z)
    (items : list LineItemInput) (notes' : option string) (st : Store) :
  items <> [] -> validateLineItems 0 items = None ->
  exists row : Job,
    jobs (createEstimate env customer items notes' st).2 !! nextJobId st = Some row /\
    status row = "Estimate Created" /\
    estimateDate row = toISODate (now env) /\
    estimateNumber row = generateEstimateNumber (now env) (random env) st /\
    totalAmount row = toFixed2 (sumAmounts items) /\
    customerId row = customer.
Proof.
  intros Hne Hval. unfold createEstimate.
  assert (Hlen : (Z.of_nat (length items) =? 0) = false).
  { apply Z.eqb_neq. destruct items; [done | simpl; lia]. }
  rewrite Hlen, Hval. cbn [Db.insertJob job_id fst snd jobs Db.insertLineItems].
  eexists. split; [apply lookup_insert_eq|]. by repeat split.
Qed.

End Path.



(** X24: what is overdue. For a job of a store that the actions have built
    and any clock, the days overdue are never negative, the job is flagged
    overdue exactly when they are positive, only a job at "Invoiced" is ever
    overdue, and as the clock advances the days overdue do not decrease and
    an overdue job stays overdue. *)
Theorem overdue_only_invoiced (st : Store) (id : Z) (j : Job) (today : JsDate) :
  reachable st -> jobs st !! id = Some j ->
  let o := calculateOverdueStatus today j in
  0 <= daysOverdue o /\
  (isOverdue o = true <-> 0 < daysOverdue o) /\
  (isOverdue o = true -> status j = "Invoiced") /\
  forall later : JsDate, getTime today <= getTime later ->
    daysOverdue o <= daysOverdue (calculateOverdueStatus later j) /\
    (isOverdue o = true -> isOverdue (calculateOverdueStatus later j) = true).
Proof.
  intros Hreach Hj. cbv zeta.
  destruct (reachable_lifecycle st Hreach id j Hj) as (_ & _ & Hw).
  pose proof (well_staged_known j Hw) as Hk.
  unfold calculateOverdueStatus.
  destruct (String.eqb_spec (status j) "Paid") as [Hp|Hp].
  { cbn. repeat split; try lia; try discriminate. }
  destruct (invoiceDate j) as [d|] eqn:Hd.
  2: { cbn. repeat split; try lia; try discriminate. }
  cbn [isOverdue daysOverdue].
  set (days := (getTime today - Date_parse d) / (1000 * 60 * 60 * 24)).
  split; [destruct (Z.gtb_spec days 30); lia|].
  split; [destruct (Z.gtb_spec days 30); split; (lia || discriminate || done)|].
  split.
  - intros _. unfold well_staged in Hw. rewrite Hd in Hw. cbn [isSet] in Hw.
    apply andb_true_iff in Hw. destruct Hw as [Hw _].
    apply andb_true_iff in Hw. destruct Hw as [Hw _].
    apply andb_true_iff in Hw. destruct Hw as [_ Hw].
    apply JOB_STATUSES_cases in Hk.
    destruct Hk as [E|[E|[E|[E|[E|[E|E]]]]]]; rewrite E in Hw;
      first [exact E | contradiction | discriminate Hw].
  - intros later Hlater.
    set (days' := (getTime later - Date_parse d) / (1000 * 60 * 60 * 24)).
    assert (Hmono : days <= days').
    { unfold days, days'. apply Z.div_le_mono; lia. }
    destruct (Z.gtb_spec days 30), (Z.gtb_spec days' 30); split; try lia;
      try done.
Qed.

Lemma overdue_only_invoiced_witness :
  exists j : Job, jobs Sample.completed !! 1 = Some j /\
    0 <= daysOverdue (calculateOverdueStatus Sample.today j).
Proof.
  assert (Hreach : reachable Sample.completed)
    by (apply reachable_run; constructor).
  eexists. split; [vm_compute; reflexivity|].
  refine (proj1 (overdue_only_invoiced Sample.completed 1 _ Sample.today
                   Hreach _)).
  vm_compute; reflexivity.
Defined.

(** ** Phone numbers *)

Section Phone.

Lemma digitsOf_append (a b : string) :
  digitsOf (a +:+ b) = digitsOf a +:+ digitsOf b.
Proof.
  induction a as [|c a IH]; [reflexivity|].
  rewrite append_cons. simpl. destruct (Js.digitValue c); [|exact IH].
  by rewrite append_cons, IH.
Qed.

Lemma digitsOf_digits_only (s : string) : digits_only (digitsOf s) = true.
Proof.
  induction s as [|c s IH]; [reflexivity|]. simpl.
  destruct (Js.digitValue c) eqn:E; [|exact IH]. simpl. by rewrite E.
Qed.

Lemma digitsOf_id (s : string) : digits_only s = true -> digitsOf s = s.
Proof.
  induction s as [|c s IH]; [reflexivity|]. simpl.
  destruct (Js.digitValue c); [|discriminate]. intros H. by rewrite IH.
Qed.

Lemma digits_only_substring (n m : nat) (s : string) :
  digits_only s = true -> digits_only (String.substring n m s) = true.
Proof.
  revert n m. induction s as [|c s IH]; intros n m H.
  - by destruct n, m.
  - simpl in H. destruct (Js.digitValue c) eqn:E; [|discriminate].
    destruct n as [|n]; simpl.
    + destruct m as [|m]; [reflexivity|]. simpl. rewrite E. by apply IH.
    + by apply IH.
Qed.

Lemma substring_ten (d : string) :
  String.length d = 10%nat ->
  slice 0 3 d +:+ slice 3 6 d +:+ slice 6 10 d = d /\
  String.length ("(" +:+ slice 0 3 d +:+ ") " +:+ slice 3 6 d +:+ "-"
                 +:+ slice 6 10 d) = 14%nat.
Proof.
  intros Hlen.
  do 10 (destruct d as [|? d]; [discriminate Hlen|]).
  destruct d; [by split | discriminate Hlen].
Qed.

(** The digits of a formatted number are the digits of the text. *)
Lemma digitsOf_formatPhoneNumber (p : string) :
  digitsOf (formatPhoneNumber p) = digitsOf p.
Proof.
  unfold formatPhoneNumber.
  destruct (Nat.eqb_spec (String.length (digitsOf p)) 10) as [Hlen|Hlen];
    [|reflexivity].
  cbn [negb]. rewrite !digitsOf_append.
  pose proof (digitsOf_digits_only p) as Hd.
  unfold slice.
  rewrite !(digitsOf_id (String.substring _ _ _))
    by (by apply digits_only_substring).
  change (digitsOf "(") with EmptyString.
  change (digitsOf ") ") with EmptyString.
  change (digitsOf "-") with EmptyString.
  rewrite !append_nil_l. by apply (substring_ten _ Hlen).
Qed.

End Phone.

(** X25: [formatPhoneNumber] gives a canonical form. It never changes the
    digits of the text, so formatting twice is formatting once and
    [validatePhoneNumber] answers the same before and after; a text that
    [validatePhoneNumber] rejects is returned as it is; a text that it
    accepts becomes a text of 14 characters, which depends on its ten
    digits only: two accepted texts get the same form exactly when they
    have the same digits. *)
Theorem formatPhoneNumber_canonical (p q : string) :
  digitsOf (formatPhoneNumber p) = digitsOf p /\
  formatPhoneNumber (formatPhoneNumber p) = formatPhoneNumber p /\
  validatePhoneNumber (formatPhoneNumber p) = validatePhoneNumber p /\
  (validatePhoneNumber p = false -> formatPhoneNumber p = p) /\
  (validatePhoneNumber p = true ->
     String.length (formatPhoneNumber p) = 14%nat /\
     (validatePhoneNumber q = true ->
        (formatPhoneNumber p = formatPhoneNumber q <-> digitsOf p = digitsOf q))).
Proof.
  pose proof (digitsOf_formatPhoneNumber p) as Hp.
  pose proof (digitsOf_formatPhoneNumber q) as Hq.
  split; [exact Hp|]. split; [|split; [|split]].
  - unfold formatPhoneNumber at 1 3. rewrite Hp.
    destruct (negb (String.length (digitsOf p) =? 10)%nat) eqn:E; [|reflexivity].
    unfold formatPhoneNumber. by rewrite E.
  - unfold validatePhoneNumber. by rewrite Hp.
  - unfold validatePhoneNumber, formatPhoneNumber. by intros ->.
  - unfold validatePhoneNumber. intros Hv. split.
    + unfold formatPhoneNumber. rewrite Hv. cbn [negb].
      apply Nat.eqb_eq in Hv. by apply (substring_ten _ Hv).
    + intros Hv'. split.
      * intros Heq. by rewrite <- Hp, <- Hq, Heq.
      * intros Heq. unfold formatPhoneNumber. by rewrite Hv, Hv', Heq.
Qed.
